(** * RTUBufferedPort: frame reassembly for Modbus-RTU over a buffered serial port

    A shallow embedding of [src/ports/rtubufferedport.js].  The port keeps
    four pieces of mutable state ([_buffer], [_id], [_cmd], [_length]) and
    a [debug] switch; [write] records what answer to expect, the serial
    client's ['data'] handler [onData] appends the inbound chunk and scans
    the buffer for that answer, and [_emitData] cuts the frame out.

    State is passed explicitly; every operation returns the new port
    together with the list of effects it performed, in order. *)

From Stdlib Require Import ZArith List Bool Lia String QArith Qround.
From Stdlib Require Import Strings.Byte.
Import ListNotations.

Local Open Scope Z_scope.

(** ** Bytes and buffers *)

(** A Node [Buffer] is a sequence of octets. *)
Definition buffer := list byte.

(** The number read from a buffer cell. *)
Definition byte_val (b : byte) : Z := Z.of_N (Byte.to_N b).

(** [buf.length]. *)
Definition blength (buf : buffer) : Z := Z.of_nat (List.length buf).

(** [buf[i]]: [None] is JavaScript's [undefined], which is what an index
    outside the buffer reads. *)
Definition index (buf : buffer) (i : Z) : option byte :=
  if i <? 0 then None else nth_error buf (Z.to_nat i).

(** [v === n] for a value read from a buffer and a number: [undefined]
    is strictly equal to no number. *)
Definition strict_eq (v : option byte) (n : Z) : bool :=
  match v with
  | Some b => byte_val b =? n
  | None => false
  end.

(** Index adjustment of [Buffer.prototype.slice]: a negative index counts
    from the end, and the result is clamped to [0 .. len]. *)
Definition adjustOffset (offset len : Z) : Z :=
  if offset <? 0 then Z.max 0 (offset + len) else Z.min offset len.

(** [buf.slice(start, end)]; [None] for [end] is the omitted argument. *)
Definition slice (buf : buffer) (start : Z) (end_ : option Z) : buffer :=
  let srcLength := blength buf in
  let s := adjustOffset start srcLength in
  let e := match end_ with
           | Some e => adjustOffset e srcLength
           | None => srcLength
           end in
  firstn (Z.to_nat (e - s)) (skipn (Z.to_nat s) buf).

(** [buf.readUInt16BE(offset)]; [None] is the [RangeError] Node throws
    when the two bytes are not inside the buffer. *)
Definition readUInt16BE (buf : buffer) (offset : Z) : option Z :=
  match index buf offset, index buf (offset + 1) with
  | Some hi, Some lo => Some (byte_val hi * 256 + byte_val lo)
  | _, _ => None
  end.

(** [parseInt(x)] on a number: the integer part, towards zero.  (The
    argument in [write] is a multiple of 1/8 between 7/8 and 8192.75; its
    decimal string has no exponent, and IEEE division by 8 is exact, so
    exact rationals are the values the source computes with.) *)
Definition parseInt (x : Q) : Z :=
  if Qle_bool 0 x then Qfloor x else Qceiling x.

(** ** The port *)

Definition EXCEPTION_LENGTH : Z := 5.
Definition MAX_BUFFER_LENGTH : Z := 256.

Record port := mkPort {
  _buffer : buffer;
  _id : byte;
  _cmd : byte;
  _length : Z;
  debug : bool
}.

(** The record passed with a ['debug'] event. *)
Record debug_record := mkDebug {
  action : string;
  data : buffer
}.

(** What the port does to the outside: events raised on the emitter and
    buffers handed to the serial client. *)
Inductive effect :=
| emit_debug (r : debug_record)
| emit_data (frame : buffer)
| client_write (d : buffer).

(** The constructor's initial state. *)
Definition RTUBufferedPort : port :=
  {| _buffer := []; _id := x00; _cmd := x00; _length := 0; debug := false |}.

Definition set_buffer (self : port) (b : buffer) : port :=
  {| _buffer := b; _id := _id self; _cmd := _cmd self;
     _length := _length self; debug := debug self |}.

Definition set_debug (self : port) (d : bool) : port :=
  {| _buffer := _buffer self; _id := _id self; _cmd := _cmd self;
     _length := _length self; debug := d |}.

(** [_emitData(start, length)]. *)
Definition _emitData (self : port) (start length : Z) : port * list effect :=
  let buffer := slice (_buffer self) start (Some (start + length)) in
  let dbg := if debug self
             then [emit_debug {| action := "recive"; data := buffer |}]
             else [] in
  (set_buffer self (slice (_buffer self) (start + length) None),
   dbg ++ [emit_data buffer]).

(** The [for] loop of [onData], from offset [i] with [n] iterations left
    before [i] passes [maxOffset].  A [return] after [_emitData] and the
    [break] both leave the handler. *)
Fixpoint scan (self : port) (expectedLength bufferLength : Z)
         (n : nat) (i : Z) : port * list effect :=
  match n with
  | O => (self, [])
  | S n' =>
    let unitId := index (_buffer self) i in
    let functionCode := index (_buffer self) (i + 1) in
    if negb (strict_eq unitId (byte_val (_id self))) then
      scan self expectedLength bufferLength n' (i + 1)
    else if strict_eq functionCode (byte_val (_cmd self))
            && (i + expectedLength <=? bufferLength) then
      _emitData self i expectedLength
    else if strict_eq functionCode (Z.lor 0x80 (byte_val (_cmd self)))
            && (i + EXCEPTION_LENGTH <=? bufferLength) then
      _emitData self i EXCEPTION_LENGTH
    else if strict_eq functionCode (Z.land 0x7f (byte_val (_cmd self))) then
      (self, [])
    else
      scan self expectedLength bufferLength n' (i + 1)
  end.

(** The ['data'] handler of the serial client. *)
Definition onData (self : port) (chunk : buffer) : port * list effect :=
  let self := set_buffer self (_buffer self ++ chunk) in
  let expectedLength := _length self in
  let bufferLength := blength (_buffer self) in
  if (expectedLength <? 6) || (bufferLength <? EXCEPTION_LENGTH) then
    (self, [])
  else
    let self :=
      if bufferLength >? MAX_BUFFER_LENGTH
      then set_buffer self (slice (_buffer self) (- MAX_BUFFER_LENGTH) None)
      else self in
    let maxOffset := bufferLength - EXCEPTION_LENGTH in
    scan self expectedLength bufferLength (Z.to_nat (maxOffset + 1)) 0.

(** Outcomes of code that may throw: [None] is an exception leaving the
    function. *)
Definition ret {A} (a : A) : option A := Some a.
Definition bind {A B} (m : option A) (k : A -> option B) : option B :=
  match m with
  | Some a => k a
  | None => None
  end.
Notation "x <- m ;; k" := (bind m (fun x => k))
  (at level 61, m at next level, right associativity).

(** The [switch] of [write]: the answer length for a command. *)
Definition answer_length (cmd : byte) (d : buffer) : option Z :=
  let c := byte_val cmd in
  if (c =? 1) || (c =? 2) then
    length <- readUInt16BE d 4 ;;
    ret (3 + parseInt ((inject_Z length - 1) / 8 + 1) + 2)
  else if (c =? 3) || (c =? 4) then
    length <- readUInt16BE d 4 ;;
    ret (3 + 2 * length + 2)
  else if (c =? 5) || (c =? 6) || (c =? 15) || (c =? 16) then
    ret (6 + 2)
  else
    ret 0.

(** [write(data)].  The cells [data[0]] and [data[1]] are read after the
    length check; the model has no port holding [undefined]. *)
Definition write (self : port) (d : buffer) : option (port * list effect) :=
  if blength d <? 6 then ret (self, [])
  else
    id <- index d 0 ;;
    cmd <- index d 1 ;;
    len <- answer_length cmd d ;;
    let self' := {| _buffer := _buffer self; _id := id; _cmd := cmd;
                    _length := len; debug := debug self |} in
    let dbg := if debug self
               then [emit_debug {| action := "send"; data := d |}]
               else [] in
    ret (self', dbg ++ [client_write d]).

(** The frames carried by the ['data'] events among some effects. *)
Fixpoint data_frames (out : list effect) : list buffer :=
  match out with
  | [] => []
  | emit_data f :: out' => f :: data_frames out'
  | _ :: out' => data_frames out'
  end.

(** The records carried by the ['debug'] events. *)
Fixpoint debug_records (out : list effect) : list debug_record :=
  match out with
  | [] => []
  | emit_debug r :: out' => r :: debug_records out'
  | _ :: out' => debug_records out'
  end.

(** The buffers handed to the serial client. *)
Fixpoint client_writes (out : list effect) : list buffer :=
  match out with
  | [] => []
  | client_write d :: out' => d :: client_writes out'
  | _ :: out' => client_writes out'
  end.

(** ** Runs of the port *)

(** What happens to a port: the owner calls [write], or the serial
    client raises ['data']. *)
Inductive input :=
| Send (d : buffer)
| Receive (chunk : buffer).

Definition step (self : port) (e : input) : option (port * list effect) :=
  match e with
  | Send d => write self d
  | Receive chunk => ret (onData self chunk)
  end.

(** Inputs handled in order, one fully before the next; the effects are
    collected in the order they happen. *)
Fixpoint run (self : port) (es : list input) : option (port * list effect) :=
  match es with
  | [] => ret (self, [])
  | e :: es' =>
    r1 <- step self e ;;
    r2 <- run (fst r1) es' ;;
    ret (fst r2, snd r1 ++ snd r2)
  end.

(** A sequence of inbound chunks. *)
Fixpoint feed (self : port) (chunks : list buffer) : port * list effect :=
  match chunks with
  | [] => (self, [])
  | c :: chunks' =>
    let r1 := onData self c in
    let r2 := feed (fst r1) chunks' in
    (fst r2, snd r1 ++ snd r2)
  end.

(** A buffer cut into chunks of one byte. *)
Definition bytewise (b : buffer) : list buffer := map (fun x => [x]) b.

(** The commands [write] knows an answer length for. *)
Definition recognized (cmd : byte) : bool :=
  let c := byte_val cmd in
  (c =? 1) || (c =? 2) || (c =? 3) || (c =? 4)
  || (c =? 5) || (c =? 6) || (c =? 15) || (c =? 16).

(** A [write] that arms the scanner again: long enough to be accepted
    and of a recognized command. *)
Definition arming (e : input) : bool :=
  match e with
  | Send d =>
    (6 <=? blength d)
    && match index d 1 with Some c => recognized c | None => false end
  | Receive _ => false
  end.

(** What the scanner looks at after an append: the trailing
    [MAX_BUFFER_LENGTH] bytes when there are more. *)
Definition retained (b : buffer) : buffer :=
  if blength b >? MAX_BUFFER_LENGTH
  then slice b (- MAX_BUFFER_LENGTH) None
  else b.

(** A match of the scanner: the two header cells at offset [j] fit the
    expectation, under the availability test of the branch taken, and
    [length] bytes are to be cut out. *)
Inductive match_at (self : port) (expectedLength bufferLength : Z)
          (j length : Z) : Prop :=
| normal_match (f : byte) :
    index (_buffer self) j = Some (_id self) ->
    index (_buffer self) (j + 1) = Some f ->
    byte_val f = byte_val (_cmd self) ->
    length = expectedLength ->
    j + expectedLength <= bufferLength ->
    match_at self expectedLength bufferLength j length
| exception_match (f : byte) :
    index (_buffer self) j = Some (_id self) ->
    index (_buffer self) (j + 1) = Some f ->
    byte_val f = Z.lor 0x80 (byte_val (_cmd self)) ->
    length = EXCEPTION_LENGTH ->
    j + EXCEPTION_LENGTH <= bufferLength ->
    match_at self expectedLength bufferLength j length.

(** The ports that differ from [self0] in the buffer only. *)
Definition same_expectation (self0 self : port) : Prop :=
  self = set_buffer self0 (_buffer self).

(** What [_emitData] raises when it cuts [frame] out of the buffer of
    [self0]. *)
Definition answer_effects (self0 : port) (frame : buffer) : list effect :=
  (if debug self0
   then [emit_debug {| action := "recive"; data := frame |}]
   else []) ++ [emit_data frame].

(** One pass of the loop body of [onData] that goes on to the next
    offset: the cell at [i] is not the unit id, or the cell after it is
    none of the three function codes the body tests. *)
Definition skips (self : port) (i : Z) : bool :=
  let unitId := index (_buffer self) i in
  let functionCode := index (_buffer self) (i + 1) in
  negb (strict_eq unitId (byte_val (_id self)))
  || negb (strict_eq functionCode (byte_val (_cmd self))
           || strict_eq functionCode (Z.lor 0x80 (byte_val (_cmd self)))
           || strict_eq functionCode (Z.land 0x7f (byte_val (_cmd self)))).

(** The first [k] offsets are all passed over. *)
Definition all_skipped (self : port) (k : nat) : bool :=
  forallb (fun m => skips self (Z.of_nat m)) (seq 0 k).

(** The requests among some inputs that [write] accepts. *)
Fixpoint accepted_sends (es : list input) : list buffer :=
  match es with
  | [] => []
  | Send d :: es' =>
    if blength d <? 6 then accepted_sends es' else d :: accepted_sends es'
  | Receive _ :: es' => accepted_sends es'
  end.

(** * Properties *)

(** ** Bytes, indices and slices *)

Lemma byte_val_range (b : byte) : 0 <= byte_val b < 256.
Proof.
  unfold byte_val. pose proof (Byte.to_N_bounded b). lia.
Qed.

Lemma byte_val_inj (a b : byte) : byte_val a = byte_val b -> a = b.
Proof.
  unfold byte_val. intros H. apply N2Z.inj in H.
  pose proof (Byte.of_to_N a) as Ha. pose proof (Byte.of_to_N b) as Hb.
  rewrite H in Ha. congruence.
Qed.

Lemma strict_eq_true (v : option byte) (b : byte) :
  strict_eq v (byte_val b) = true -> v = Some b.
Proof.
  destruct v as [c|]; simpl; [|discriminate].
  intros H. apply Z.eqb_eq, byte_val_inj in H. now subst.
Qed.

Lemma strict_eq_Some (v : option byte) (n : Z) :
  strict_eq v n = true -> exists c, v = Some c /\ byte_val c = n.
Proof.
  destruct v as [c|]; simpl; [|discriminate].
  intros H. apply Z.eqb_eq in H. eauto.
Qed.

Lemma blength_nonneg (b : buffer) : 0 <= blength b.
Proof. unfold blength. lia. Qed.

Lemma blength_app (a b : buffer) : blength (a ++ b) = blength a + blength b.
Proof. unfold blength. rewrite length_app. lia. Qed.

Lemma index_Some_bounds (buf : buffer) (i : Z) (b : byte) :
  index buf i = Some b -> 0 <= i < blength buf.
Proof.
  unfold index, blength. destruct (Z.ltb_spec i 0); [discriminate|].
  intros H0. assert (nth_error buf (Z.to_nat i) <> None) as Hn by congruence.
  apply nth_error_Some in Hn. lia.
Qed.

Lemma length_slice_le (buf : buffer) (s : Z) (e : option Z) :
  blength (slice buf s e) <= blength buf.
Proof.
  unfold slice, blength. rewrite length_firstn, length_skipn. lia.
Qed.

(** Cutting [length] bytes at [start] splits the buffer in three: what
    is skipped, the slice, and what [slice(start + length)] keeps. *)
Lemma slice_split (buf : buffer) (start length : Z) :
  0 <= start -> 0 <= length ->
  buf = firstn (Z.to_nat start) buf
        ++ slice buf start (Some (start + length))
        ++ slice buf (start + length) None.
Proof.
  intros Hs Hl. unfold slice, adjustOffset.
  destruct (Z.ltb_spec start 0); [lia|].
  destruct (Z.ltb_spec (start + length) 0); [lia|].
  set (len := blength buf).
  assert (0 <= len) by apply blength_nonneg.
  assert (firstn (Z.to_nat (len - Z.min (start + length) len))
                 (skipn (Z.to_nat (Z.min (start + length) len)) buf)
          = skipn (Z.to_nat (Z.min (start + length) len)) buf) as ->.
  { apply firstn_all2. rewrite length_skipn. unfold len, blength. lia. }
  assert (firstn (Z.to_nat start) buf
          = firstn (Z.to_nat (Z.min start len)) buf) as ->.
  { destruct (Z.le_gt_cases start len).
    - now rewrite Z.min_l by lia.
    - rewrite Z.min_r by lia.
      rewrite !firstn_all2; unfold len, blength in *; auto; lia. }
  replace (Z.to_nat (Z.min (start + length) len))
    with (Z.to_nat (Z.min (start + length) len - Z.min start len)
          + Z.to_nat (Z.min start len))%nat by lia.
  rewrite <- skipn_skipn.
  now rewrite firstn_skipn, firstn_skipn.
Qed.

(** A slice that lies inside the buffer has the length asked for and
    starts with the cells at [start] and [start + 1]. *)
Lemma slice_inside (buf : buffer) (start length : Z) (a b : byte) :
  0 <= start -> 2 <= length -> start + length <= blength buf ->
  index buf start = Some a -> index buf (start + 1) = Some b ->
  exists rest,
    slice buf start (Some (start + length)) = a :: b :: rest
    /\ blength (slice buf start (Some (start + length))) = length.
Proof.
  intros Hs Hl Hle Ha Hb.
  assert (blength (slice buf start (Some (start + length))) = length) as Hlen.
  { unfold slice, adjustOffset, blength in *.
    destruct (Z.ltb_spec start 0); [lia|].
    destruct (Z.ltb_spec (start + length) 0); [lia|].
    rewrite length_firstn, length_skipn. lia. }
  rewrite Hlen.
  cut (exists rest, slice buf start (Some (start + length)) = a :: b :: rest).
  { intros [rest Hr]. eauto. }
  clear Hlen. unfold slice, adjustOffset.
  destruct (Z.ltb_spec start 0); [lia|].
  destruct (Z.ltb_spec (start + length) 0); [lia|].
  rewrite !Z.min_l by lia.
  unfold index in Ha, Hb.
  destruct (Z.ltb_spec start 0); [lia|].
  destruct (Z.ltb_spec (start + 1) 0); [lia|].
  replace (Z.to_nat (start + 1)) with (S (Z.to_nat start)) in Hb by lia.
  replace (Z.to_nat (start + length - start))
    with (S (S (Z.to_nat (length - 2)))) by lia.
  revert Ha Hb. generalize (Z.to_nat start) as k. intros k Ha Hb.
  assert (k < List.length buf)%nat as Hk.
  { apply nth_error_Some. congruence. }
  rewrite <- (firstn_skipn k buf) in Ha, Hb.
  rewrite nth_error_app2 in Ha, Hb by (rewrite length_firstn; lia).
  rewrite length_firstn in Ha, Hb.
  replace (k - Nat.min k (List.length buf))%nat with 0%nat in Ha by lia.
  replace (S k - Nat.min k (List.length buf))%nat with 1%nat in Hb by lia.
  destruct (skipn k buf) as [|x [|y t]]; simpl in Ha, Hb; try discriminate.
  injection Ha as ->. injection Hb as ->.
  simpl. eauto.
Qed.

(** ** The scanner *)

Lemma set_buffer_twice (self : port) (a b : buffer) :
  set_buffer (set_buffer self a) b = set_buffer self b.
Proof. reflexivity. Qed.

Lemma retained_le (b : buffer) : blength (retained b) <= MAX_BUFFER_LENGTH.
Proof.
  unfold retained. destruct (Z.gtb_spec (blength b) MAX_BUFFER_LENGTH); [|lia].
  unfold slice, adjustOffset, MAX_BUFFER_LENGTH, blength in *.
  change (- (256) <? 0) with true. cbv iota.
  rewrite length_firstn, length_skipn. lia.
Qed.

Lemma retained_small (b : buffer) :
  blength b <= MAX_BUFFER_LENGTH -> retained b = b.
Proof.
  unfold retained. intros H.
  destruct (Z.gtb_spec (blength b) MAX_BUFFER_LENGTH); [lia|reflexivity].
Qed.

(** The handler either stops at its length check, leaving the appended
    buffer, or scans what it retains, with the bounds taken from the
    length before the cut. *)
Lemma onData_waits (self : port) (chunk : buffer) :
  _length self < 6 \/ blength (_buffer self ++ chunk) < EXCEPTION_LENGTH ->
  onData self chunk = (set_buffer self (_buffer self ++ chunk), []).
Proof.
  intros H. unfold onData. cbn [_length _buffer set_buffer].
  destruct (Z.ltb_spec (_length self) 6); [reflexivity|].
  destruct (Z.ltb_spec (blength (_buffer self ++ chunk)) EXCEPTION_LENGTH);
    [reflexivity|lia].
Qed.

Lemma onData_scans (self : port) (chunk : buffer) :
  6 <= _length self ->
  EXCEPTION_LENGTH <= blength (_buffer self ++ chunk) ->
  onData self chunk
  = scan (set_buffer self (retained (_buffer self ++ chunk)))
         (_length self) (blength (_buffer self ++ chunk))
         (Z.to_nat (blength (_buffer self ++ chunk) - EXCEPTION_LENGTH + 1)) 0.
Proof.
  intros HL Hb. unfold onData, retained. cbn [_length _buffer set_buffer].
  destruct (Z.ltb_spec (_length self) 6); [lia|].
  destruct (Z.ltb_spec (blength (_buffer self ++ chunk)) EXCEPTION_LENGTH);
    [lia|].
  cbn [orb].
  destruct (blength (_buffer self ++ chunk) >? MAX_BUFFER_LENGTH); reflexivity.
Qed.

(** What a scan can come to: nothing, or one [_emitData] at an offset
    where the scanner matched. *)
Lemma scan_cases (self : port) (expectedLength bufferLength : Z) (n : nat) :
  forall i, 0 <= i ->
  scan self expectedLength bufferLength n i = (self, [])
  \/ exists j length,
       i <= j < i + Z.of_nat n
       /\ match_at self expectedLength bufferLength j length
       /\ scan self expectedLength bufferLength n i = _emitData self j length.
Proof.
  induction n as [|n IH]; intros i Hi; [now left|].
  cbn [scan].
  destruct (strict_eq (index (_buffer self) i) (byte_val (_id self))) eqn:Eid;
    cbn [negb].
  2:{ destruct (IH (i + 1)) as [H|(j & l & Hj & Hm & H)]; [lia|now left|].
      right. exists j, l. repeat split; auto; lia. }
  apply strict_eq_true in Eid.
  destruct (strict_eq (index (_buffer self) (i + 1)) (byte_val (_cmd self))
            && (i + expectedLength <=? bufferLength)) eqn:En.
  { apply andb_true_iff in En as [Ec Ea].
    apply strict_eq_Some in Ec as (f & Hf & Hv). apply Z.leb_le in Ea.
    right. exists i, expectedLength. repeat split; try lia.
    eapply normal_match; eauto. }
  destruct (strict_eq (index (_buffer self) (i + 1))
                      (Z.lor 0x80 (byte_val (_cmd self)))
            && (i + EXCEPTION_LENGTH <=? bufferLength)) eqn:Ex.
  { apply andb_true_iff in Ex as [Ec Ea].
    apply strict_eq_Some in Ec as (f & Hf & Hv). apply Z.leb_le in Ea.
    right. exists i, EXCEPTION_LENGTH. repeat split; try lia.
    eapply exception_match; eauto. }
  destruct (strict_eq (index (_buffer self) (i + 1))
                      (Z.land 0x7f (byte_val (_cmd self)))); [now left|].
  destruct (IH (i + 1)) as [H|(j & l & Hj & Hm & H)]; [lia|now left|].
  right. exists j, l. repeat split; auto; lia.
Qed.

(** One receive event comes to one of three things. *)
Lemma onData_cases (self : port) (chunk : buffer) :
  let buf := _buffer self ++ chunk in
  onData self chunk = (set_buffer self buf, [])
  \/ (6 <= _length self
      /\ onData self chunk = (set_buffer self (retained buf), []))
  \/ (6 <= _length self
      /\ exists j length,
           0 <= j
           /\ match_at (set_buffer self (retained buf))
                       (_length self) (blength buf) j length
           /\ onData self chunk
              = _emitData (set_buffer self (retained buf)) j length).
Proof.
  intros buf.
  destruct (Z.lt_ge_cases (_length self) 6) as [HL|HL].
  { left. apply onData_waits. now left. }
  destruct (Z.lt_ge_cases (blength buf) EXCEPTION_LENGTH) as [Hb|Hb].
  { left. apply onData_waits. now right. }
  rewrite onData_scans by assumption. fold buf.
  destruct (scan_cases (set_buffer self (retained buf)) (_length self)
              (blength buf) (Z.to_nat (blength buf - EXCEPTION_LENGTH + 1)) 0)
    as [H|(j & l & Hj & Hm & H)]; [lia| |].
  - right. left. auto.
  - right. right. split; [assumption|]. exists j, l. repeat split; auto; lia.
Qed.

(** ** [write] *)

Lemma index_in_range (buf : buffer) (i : Z) :
  0 <= i < blength buf -> exists b, index buf i = Some b.
Proof.
  unfold index, blength. intros H. destruct (Z.ltb_spec i 0); [lia|].
  destruct (nth_error buf (Z.to_nat i)) as [b|] eqn:E; [eauto|].
  apply nth_error_None in E. lia.
Qed.

Lemma readUInt16BE_in_range (buf : buffer) (offset : Z) :
  0 <= offset -> offset + 2 <= blength buf ->
  exists q, readUInt16BE buf offset = Some q /\ 0 <= q <= 65535.
Proof.
  intros H0 H1. unfold readUInt16BE.
  destruct (index_in_range buf offset) as [hi ->]; [lia|].
  destruct (index_in_range buf (offset + 1)) as [lo ->]; [lia|].
  pose proof (byte_val_range hi). pose proof (byte_val_range lo).
  eexists. split; [reflexivity|lia].
Qed.

Lemma readUInt16BE_Some_length (buf : buffer) (offset q : Z) :
  readUInt16BE buf offset = Some q -> offset + 2 <= blength buf.
Proof.
  unfold readUInt16BE.
  destruct (index buf offset) as [hi|] eqn:E1; [|discriminate].
  destruct (index buf (offset + 1)) as [lo|] eqn:E2; [|discriminate].
  apply index_Some_bounds in E2. lia.
Qed.

(** The rational the source hands to [parseInt], in lowest common form. *)
Lemma eighths_plus_one (q : Z) : ((inject_Z q - 1) / 8 + 1 == (q + 7) # 8)%Q.
Proof.
  unfold Qeq, Qdiv, Qminus, Qplus, Qmult, Qinv, Qopp, inject_Z. simpl. lia.
Qed.

Lemma parseInt_eighths (q : Z) :
  0 <= q -> parseInt ((inject_Z q - 1) / 8 + 1) = (q + 7) / 8.
Proof.
  intros Hq. unfold parseInt.
  assert (Qle_bool 0 ((inject_Z q - 1) / 8 + 1) = true) as ->.
  { apply Qle_bool_iff. rewrite eighths_plus_one.
    unfold Qle. simpl. lia. }
  rewrite (Qfloor_comp _ _ (eighths_plus_one q)). reflexivity.
Qed.

Lemma Qceiling_eighths (q : Z) : Qceiling (inject_Z q / 8) = (q + 7) / 8.
Proof.
  assert (inject_Z q / 8 == q # 8)%Q as E.
  { unfold Qeq, Qdiv, Qmult, Qinv, inject_Z. simpl. lia. }
  rewrite (Qceiling_comp _ _ E). unfold Qceiling, Qfloor, Qopp.
  cbn [Qnum Qden]. Z.div_mod_to_equations. lia.
Qed.

Lemma floor_eighths (q : Z) : (q - 1) / 8 + 1 = (q + 7) / 8.
Proof. Z.div_mod_to_equations. lia. Qed.

(** The four arms of the [switch]. *)
Lemma answer_length_bits (c : byte) (d : buffer) (q : Z) :
  byte_val c = 1 \/ byte_val c = 2 ->
  readUInt16BE d 4 = Some q ->
  answer_length c d = Some (3 + parseInt ((inject_Z q - 1) / 8 + 1) + 2).
Proof.
  intros Hv Hq. unfold answer_length. rewrite Hq.
  destruct Hv as [-> | ->]; reflexivity.
Qed.

Lemma answer_length_words (c : byte) (d : buffer) (q : Z) :
  byte_val c = 3 \/ byte_val c = 4 ->
  readUInt16BE d 4 = Some q ->
  answer_length c d = Some (3 + 2 * q + 2).
Proof.
  intros Hv Hq. unfold answer_length. rewrite Hq.
  destruct Hv as [-> | ->]; reflexivity.
Qed.

Lemma answer_length_echo (c : byte) (d : buffer) :
  byte_val c = 5 \/ byte_val c = 6 \/ byte_val c = 15 \/ byte_val c = 16 ->
  answer_length c d = Some 8.
Proof.
  intros Hv. unfold answer_length.
  destruct Hv as [-> | [-> | [-> | ->]]]; reflexivity.
Qed.

Lemma answer_length_unrecognized (c : byte) (d : buffer) :
  recognized c = false -> answer_length c d = Some 0.
Proof.
  unfold recognized, answer_length. cbv zeta. intros Hn.
  rewrite !orb_false_iff in Hn.
  destruct Hn as [[[[[[[E1 E2] E3] E4] E5] E6] E7] E8].
  rewrite E1, E2, E3, E4, E5, E6, E7, E8. reflexivity.
Qed.

(** [write] on an accepted request, spelled out. *)
Lemma write_accepted (self : port) (d : buffer) (id cmd : byte) (len : Z) :
  6 <= blength d ->
  index d 0 = Some id -> index d 1 = Some cmd ->
  answer_length cmd d = Some len ->
  write self d
  = Some ({| _buffer := _buffer self; _id := id; _cmd := cmd;
             _length := len; debug := debug self |},
          (if debug self
           then [emit_debug {| action := "send"; data := d |}]
           else []) ++ [client_write d]).
Proof.
  intros Hl H0 H1 Ha. unfold write.
  destruct (Z.ltb_spec (blength d) 6); [lia|].
  rewrite H0, H1. cbn [bind]. rewrite Ha. reflexivity.
Qed.

Lemma answer_length_total (cmd : byte) (d : buffer) :
  6 <= blength d -> exists len, answer_length cmd d = Some len.
Proof.
  intros Hl. unfold answer_length.
  destruct (readUInt16BE_in_range d 4) as (q & -> & _); [lia|lia|].
  cbn [bind ret].
  repeat match goal with |- context [if ?c then _ else _] => destruct c end;
    eauto.
Qed.


Lemma write_keeps_buffer (self self' : port) (d : buffer) (out : list effect) :
  write self d = Some (self', out) -> _buffer self' = _buffer self.
Proof.
  unfold write. destruct (blength d <? 6).
  - intros [= <- _]. reflexivity.
  - destruct (index d 0); [|discriminate]. destruct (index d 1); [|discriminate].
    cbn [bind]. destruct (answer_length b0 d); [|discriminate].
    cbn [bind ret]. intros [= <- _]. reflexivity.
Qed.

Lemma write_no_data (self self' : port) (d : buffer) (out : list effect) :
  write self d = Some (self', out) -> data_frames out = [].
Proof.
  unfold write. destruct (blength d <? 6).
  - intros [= _ <-]. reflexivity.
  - destruct (index d 0); [|discriminate]. destruct (index d 1); [|discriminate].
    cbn [bind]. destruct (answer_length b0 d); [|discriminate].
    cbn [bind ret]. intros [= _ <-]. destruct (debug self); reflexivity.
Qed.

(** C3: for a request of at least 6 bytes whose command code is 1 or 2,
    [write] stores the expected length [3 + ceil(q / 8) + 2], where [q] is
    the big-endian 16-bit quantity at offset 4 of the request; this holds
    for every [q] from 0 to 65535, and the floor form
    [floor((q - 1) / 8) + 1] is that same ceiling. *)
Theorem write_bits_expected_length (self : port) (d : buffer) (c : byte) :
  6 <= blength d ->
  index d 1 = Some c ->
  byte_val c = 1 \/ byte_val c = 2 ->
  exists q self' out,
    readUInt16BE d 4 = Some q
    /\ 0 <= q <= 65535
    /\ write self d = Some (self', out)
    /\ _length self' = 3 + Qceiling (inject_Z q / 8) + 2
    /\ (q - 1) / 8 + 1 = Qceiling (inject_Z q / 8).
Proof.
  intros Hl Hc Hv.
  destruct (readUInt16BE_in_range d 4) as (q & Hq & Hr); [lia|lia|].
  destruct (index_in_range d 0) as [id H0]; [lia|].
  assert (answer_length c d
          = Some (3 + parseInt ((inject_Z q - 1) / 8 + 1) + 2)) as Ha.
  { now apply answer_length_bits. }
  exists q. do 2 eexists.
  split; [exact Hq|]. split; [exact Hr|].
  split; [apply (write_accepted self d id c _ Hl H0 Hc Ha)|].
  cbn [_length]. rewrite parseInt_eighths, Qceiling_eighths by lia.
  split; [reflexivity|apply floor_eighths].
Qed.

Lemma write_bits_expected_length_witness :
  exists q self' out,
    readUInt16BE [x11; x01; x00; x13; x00; x25] 4 = Some q
    /\ 0 <= q <= 65535
    /\ write RTUBufferedPort [x11; x01; x00; x13; x00; x25] = Some (self', out)
    /\ _length self' = 3 + Qceiling (inject_Z q / 8) + 2
    /\ (q - 1) / 8 + 1 = Qceiling (inject_Z q / 8).
Proof.
  apply (write_bits_expected_length RTUBufferedPort
           [x11; x01; x00; x13; x00; x25] x01).
  - vm_compute. discriminate.
  - reflexivity.
  - left. reflexivity.
Defined.

(** The quantity field takes every 16-bit value. *)
Lemma quantity_field_onto (q : Z) :
  0 <= q <= 65535 ->
  exists hi lo, forall u c a1 a2 rest,
    readUInt16BE (u :: c :: a1 :: a2 :: hi :: lo :: rest) 4 = Some q.
Proof.
  intros Hq.
  assert (forall n, 0 <= n < 256 -> exists b, byte_val b = n) as Hb.
  { intros n Hn. destruct (Byte.of_N (Z.to_N n)) as [b|] eqn:E.
    - exists b. unfold byte_val. apply Byte.to_of_N in E. lia.
    - apply Byte.of_N_None_iff in E. lia. }
  destruct (Hb (q / 256)) as [hi Hhi]; [Z.div_mod_to_equations; lia|].
  destruct (Hb (q mod 256)) as [lo Hlo]; [Z.div_mod_to_equations; lia|].
  exists hi, lo. intros.
  change (readUInt16BE (u :: c :: a1 :: a2 :: hi :: lo :: rest) 4)
    with (Some (byte_val hi * 256 + byte_val lo)).
  rewrite Hhi, Hlo. f_equal. Z.div_mod_to_equations. lia.
Qed.

(** C2, as the code has it: after [write] accepts a request of at least
    6 bytes, the stored expected length is 0 for an unrecognized command,
    8 for commands 5, 6, 15 and 16, at least 6 for commands 1 to 4 with a
    quantity of at least 1, and 5 for commands 1 to 4 with quantity 0. *)
Theorem write_expected_length_bounds (self : port) (d : buffer) (c : byte) :
  6 <= blength d ->
  index d 1 = Some c ->
  exists q self' out,
    readUInt16BE d 4 = Some q
    /\ write self d = Some (self', out)
    /\ (recognized c = false -> _length self' = 0)
    /\ (byte_val c = 5 \/ byte_val c = 6 \/ byte_val c = 15 \/ byte_val c = 16 ->
        _length self' = 8)
    /\ (byte_val c = 1 \/ byte_val c = 2 \/ byte_val c = 3 \/ byte_val c = 4 ->
        (1 <= q -> 6 <= _length self') /\ (q = 0 -> _length self' = 5)).
Proof.
  intros Hl Hc.
  destruct (readUInt16BE_in_range d 4) as (q & Hq & Hr); [lia|lia|].
  destruct (index_in_range d 0) as [id H0]; [lia|].
  destruct (answer_length_total c d Hl) as [len Ha].
  exists q. do 2 eexists.
  split; [exact Hq|].
  split; [apply (write_accepted self d id c len Hl H0 Hc Ha)|].
  cbn [_length]. split; [|split].
  - intros Hn. rewrite (answer_length_unrecognized c d Hn) in Ha. congruence.
  - intros Hv. rewrite (answer_length_echo c d Hv) in Ha. congruence.
  - intros Hv.
    assert (len = 3 + (q + 7) / 8 + 2 \/ len = 3 + 2 * q + 2) as Hlen.
    { destruct Hv as [Hv | [Hv | [Hv | Hv]]].
      - left. rewrite (answer_length_bits c d q) in Ha by auto.
        rewrite parseInt_eighths in Ha by lia. congruence.
      - left. rewrite (answer_length_bits c d q) in Ha by auto.
        rewrite parseInt_eighths in Ha by lia. congruence.
      - right. rewrite (answer_length_words c d q) in Ha by auto. congruence.
      - right. rewrite (answer_length_words c d q) in Ha by auto. congruence. }
    split.
    + intros Hq1. destruct Hlen as [-> | ->]; [|lia].
      Z.div_mod_to_equations. lia.
    + intros ->. destruct Hlen as [-> | ->]; reflexivity.
Qed.

Lemma write_expected_length_bounds_witness :
  exists q self' out,
    readUInt16BE [x01; x03; x00; x00; x00; x02] 4 = Some q
    /\ write RTUBufferedPort [x01; x03; x00; x00; x00; x02] = Some (self', out)
    /\ (recognized x03 = false -> _length self' = 0)
    /\ (byte_val x03 = 5 \/ byte_val x03 = 6 \/ byte_val x03 = 15
        \/ byte_val x03 = 16 ->
        _length self' = 8)
    /\ (byte_val x03 = 1 \/ byte_val x03 = 2 \/ byte_val x03 = 3
        \/ byte_val x03 = 4 ->
        (1 <= q -> 6 <= _length self') /\ (q = 0 -> _length self' = 5)).
Proof.
  apply (write_expected_length_bounds RTUBufferedPort
           [x01; x03; x00; x00; x00; x02] x03).
  - vm_compute. discriminate.
  - reflexivity.
Defined.

(** C2 as stated fails: a read of zero coils is an accepted request of a
    recognized command, and its stored expected length is 5, neither 0
    nor at least 6. *)
Lemma write_zero_quantity_length_5 :
  exists self' out,
    6 <= blength [x01; x01; x00; x00; x00; x00]
    /\ recognized x01 = true
    /\ write RTUBufferedPort [x01; x01; x00; x00; x00; x00] = Some (self', out)
    /\ _length self' = 5
    /\ ~ (_length self' = 0 \/ 6 <= _length self').
Proof.
  do 2 eexists. split; [vm_compute; discriminate|].
  split; [reflexivity|]. split; [reflexivity|].
  split; [reflexivity|]. cbn. lia.
Qed.

(** The length check of [write]. *)
Lemma write_below_minimum (self : port) (d : buffer) :
  blength d < 6 -> write self d = Some (self, []).
Proof.
  intros H. unfold write. destruct (Z.ltb_spec (blength d) 6); [|lia].
  reflexivity.
Qed.

(** C7: a request shorter than 6 bytes is dropped: [write] returns
    without throwing, hands nothing to the serial client, raises no
    event, and leaves [_id], [_cmd], [_length] (the whole port) as they
    were. *)
Theorem write_short_ignored (self : port) (d : buffer) :
  blength d < 6 ->
  write self d = Some (self, [])
  /\ forall self' out,
       write self d = Some (self', out) ->
       client_writes out = []
       /\ _id self' = _id self /\ _cmd self' = _cmd self
       /\ _length self' = _length self.
Proof.
  intros H. rewrite write_below_minimum by exact H.
  split; [reflexivity|]. intros self' out [= <- <-]. auto.
Qed.

Lemma write_short_ignored_witness :
  write (mkPort [x07] x01 x03 9 true) [x01; x03; x00; x00; x00]
  = Some (mkPort [x07] x01 x03 9 true, []).
Proof.
  apply (proj1 (write_short_ignored (mkPort [x07] x01 x03 9 true)
                  [x01; x03; x00; x00; x00] eq_refl)).
Defined.


(** ** The buffer cap *)

(** C1, as the code has it: a chunk handled while the expected length is
    at least 6 leaves at most [MAX_BUFFER_LENGTH] = 256 bytes in the
    buffer, whatever the buffer held before and whatever arrives; while
    the expected length is below 6 the handler returns before the cut,
    and the buffer is what it was followed by the chunk. *)
Theorem onData_buffer_capped (self : port) (chunk : buffer) :
  (6 <= _length self ->
   blength (_buffer (fst (onData self chunk))) <= MAX_BUFFER_LENGTH)
  /\ (_length self < 6 ->
      _buffer (fst (onData self chunk)) = _buffer self ++ chunk).
Proof.
  split.
  2:{ intros HL. rewrite onData_waits by now left. reflexivity. }
  intros HL.
  destruct (Z.lt_ge_cases (blength (_buffer self ++ chunk)) EXCEPTION_LENGTH)
    as [Hb|Hb].
  { rewrite onData_waits by now right. cbn [fst set_buffer _buffer].
    unfold EXCEPTION_LENGTH, MAX_BUFFER_LENGTH in *. lia. }
  rewrite onData_scans by assumption.
  pose proof (retained_le (_buffer self ++ chunk)) as Hr.
  match goal with |- context [scan ?s ?l ?b ?n 0] =>
    destruct (scan_cases s l b n 0) as [H|(j & len & _ & _ & H)]; [lia| |];
    rewrite H
  end.
  - exact Hr.
  - cbn [_emitData fst set_buffer _buffer].
    etransitivity; [apply length_slice_le|exact Hr].
Qed.

Lemma onData_buffer_capped_witness :
  blength (_buffer (fst (onData (mkPort [] x01 x03 9 false)
                                (repeat x00 300)))) <= MAX_BUFFER_LENGTH.
Proof.
  apply (proj1 (onData_buffer_capped (mkPort [] x01 x03 9 false)
                                     (repeat x00 300))).
  cbn. lia.
Defined.

(** C1 as stated fails: a fresh port has expected length 0, its handler
    returns before the cut, and one chunk of 300 bytes leaves 300 bytes
    in the buffer. *)
Lemma buffer_exceeds_cap_when_disabled :
  exists (es : list input) (self' : port) (out : list effect),
    run RTUBufferedPort es = Some (self', out)
    /\ _length self' = 0
    /\ blength (_buffer self') = 300
    /\ ~ blength (_buffer self') <= MAX_BUFFER_LENGTH.
Proof.
  exists [Receive (repeat x00 300)]. do 2 eexists.
  split; [reflexivity|]. split; [reflexivity|].
  split; [reflexivity|]. vm_compute. intros H. apply H. reflexivity.
Qed.

(** ** Scenarios *)

(** C4: after a send of [01 03 00 00 00 02 ...] (unit 1, command 3,
    expected length 9), the chunk [01 83 02 lo hi] arriving on an empty
    buffer raises exactly one ['data'] event, carrying those 5 bytes, and
    leaves the buffer empty. *)
Theorem exception_answer_scenario (self : port) (rest : buffer) (lo hi : byte) :
  _buffer self = [] ->
  exists armed out,
    write self (x01 :: x03 :: x00 :: x00 :: x00 :: x02 :: rest)
    = Some (armed, out)
    /\ _id armed = x01 /\ _cmd armed = x03 /\ _length armed = 9
    /\ data_frames (snd (onData armed [x01; x83; x02; lo; hi]))
       = [[x01; x83; x02; lo; hi]]
    /\ _buffer (fst (onData armed [x01; x83; x02; lo; hi])) = [].
Proof.
  intros Hb.
  set (d := x01 :: x03 :: x00 :: x00 :: x00 :: x02 :: rest).
  assert (6 <= blength d) as Hl.
  { unfold d, blength. cbn [List.length]. lia. }
  assert (answer_length x03 d = Some 9) as Ha.
  { apply (answer_length_words x03 d 2); [now left|reflexivity]. }
  do 2 eexists.
  split; [apply (write_accepted self d x01 x03 9 Hl eq_refl eq_refl Ha)|].
  rewrite Hb. cbn [_id _cmd _length].
  repeat split; destruct (debug self); reflexivity.
Qed.

Lemma exception_answer_scenario_witness :
  exists armed out,
    write RTUBufferedPort [x01; x03; x00; x00; x00; x02; xc4; x0b]
    = Some (armed, out)
    /\ _id armed = x01 /\ _cmd armed = x03 /\ _length armed = 9
    /\ data_frames (snd (onData armed [x01; x83; x02; xc0; xf1]))
       = [[x01; x83; x02; xc0; xf1]]
    /\ _buffer (fst (onData armed [x01; x83; x02; xc0; xf1])) = [].
Proof.
  apply (exception_answer_scenario RTUBufferedPort [xc4; x0b] xc0 xf1).
  reflexivity.
Defined.

(** ** One frame per receive event *)

Lemma data_frames_app (a b : list effect) :
  data_frames (a ++ b) = data_frames a ++ data_frames b.
Proof.
  induction a as [|[r|f|d] a IH]; cbn [app data_frames]; congruence.
Qed.

Lemma data_frames_emitData (self : port) (start length : Z) :
  data_frames (snd (_emitData self start length))
  = [slice (_buffer self) start (Some (start + length))].
Proof.
  unfold _emitData. cbn [snd]. destruct (debug self); reflexivity.
Qed.

(** C5: one inbound chunk raises at most one ['data'] event, however
    many complete answers the buffer holds after the append; what the
    scanner retained is then the skipped bytes, the frame, and the bytes
    after the frame, and those stay in the buffer for the next chunk. *)
Theorem onData_at_most_one_frame (self : port) (chunk : buffer) :
  data_frames (snd (onData self chunk)) = []
  \/ exists skipped frame,
       data_frames (snd (onData self chunk)) = [frame]
       /\ retained (_buffer self ++ chunk)
          = skipped ++ frame ++ _buffer (fst (onData self chunk)).
Proof.
  destruct (onData_cases self chunk)
    as [H|[[_ H]|(HL & j & len & Hj & Hm & H)]]; rewrite H.
  - now left.
  - now left.
  - right. rewrite data_frames_emitData.
    cbn [_emitData fst set_buffer _buffer].
    do 2 eexists. split; [reflexivity|].
    apply slice_split; [assumption|].
    destruct Hm; subst; unfold EXCEPTION_LENGTH; lia.
Qed.

(** Two complete answers in one chunk: the first is raised, the second
    waits in the buffer, and the next chunk, even an empty one, raises
    it. *)
Example two_answers_in_one_chunk :
  let armed := mkPort [] x01 x06 8 false in
  let a1 := [x01; x06; x00; x01; x00; x03; x98; x0b] in
  let a2 := [x01; x06; x00; x01; x00; x04; xd9; xc9] in
  onData armed (a1 ++ a2) = (set_buffer armed a2, [emit_data a1])
  /\ onData (set_buffer armed a2) [] = (armed, [emit_data a2]).
Proof. split; reflexivity. Qed.

(** C10: when the buffer after the append holds at most 256 bytes, a
    frame carried by a ['data'] event starts with the expected unit id,
    followed either by the expected command code, and then the frame has
    exactly the expected length, or by [0x80 | command code], and then it
    has exactly 5 bytes.  Past 256 bytes the buffer is cut to its last
    256 while the scan keeps the bounds of the length before the cut, and
    a frame shorter than the expected length can be raised. *)
Theorem onData_frame_shape :
  (forall (self : port) (chunk frame : buffer),
      blength (_buffer self ++ chunk) <= MAX_BUFFER_LENGTH ->
      In frame (data_frames (snd (onData self chunk))) ->
      exists f rest,
        frame = _id self :: f :: rest
        /\ ((f = _cmd self /\ blength frame = _length self)
            \/ (byte_val f = Z.lor 0x80 (byte_val (_cmd self))
                /\ blength frame = EXCEPTION_LENGTH)))
  /\ (exists (self : port) (chunk frame : buffer),
         MAX_BUFFER_LENGTH < blength (_buffer self ++ chunk)
         /\ data_frames (snd (onData self chunk)) = [frame]
         /\ frame = [_id self; _cmd self; x00; x00; x00; x00]
         /\ blength frame < _length self).
Proof.
  split.
  - intros self chunk frame Hcap Hin.
    destruct (onData_cases self chunk)
      as [H|[[_ H]|(HL & j & len & Hj & Hm & H)]]; rewrite H in Hin;
      try contradiction.
    rewrite data_frames_emitData in Hin. destruct Hin as [<-|[]].
    rewrite retained_small in * by assumption.
    cbn [set_buffer _buffer _id _cmd] in *.
    destruct Hm as [f Hi Hf Hv -> Ha | f Hi Hf Hv -> Ha].
    + destruct (slice_inside _ j (_length self) _ f Hj ltac:(lia) Ha Hi Hf)
        as (rest & Hs & Hlen).
      apply byte_val_inj in Hv. subst f.
      exists (_cmd self), rest. split; [exact Hs|]. left. split; auto.
    + destruct (slice_inside _ j EXCEPTION_LENGTH _ f Hj
                  ltac:(unfold EXCEPTION_LENGTH; lia) Ha Hi Hf)
        as (rest & Hs & Hlen).
      exists f, rest. split; [exact Hs|]. right. split; auto.
  - exists (mkPort [] x01 x03 9 false).
    exists (repeat xff 4 ++ repeat x00 250 ++ [x01; x03; x00; x00; x00; x00]).
    eexists. split; [vm_compute; reflexivity|].
    split; [vm_compute; reflexivity|].
    split; [reflexivity|]. vm_compute. reflexivity.
Qed.

Lemma onData_frame_shape_witness :
  exists f rest,
    [x01; x03; x04; x00; x01; x00; x02; x2a; x32]
    = _id (mkPort [xff] x01 x03 9 false) :: f :: rest
    /\ ((f = _cmd (mkPort [xff] x01 x03 9 false)
         /\ blength [x01; x03; x04; x00; x01; x00; x02; x2a; x32]
            = _length (mkPort [xff] x01 x03 9 false))
        \/ (byte_val f
            = Z.lor 0x80 (byte_val (_cmd (mkPort [xff] x01 x03 9 false)))
            /\ blength [x01; x03; x04; x00; x01; x00; x02; x2a; x32]
               = EXCEPTION_LENGTH)).
Proof.
  apply (proj1 onData_frame_shape (mkPort [xff] x01 x03 9 false)
           [x01; x03; x04; x00; x01; x00; x02; x2a; x32]).
  - vm_compute. discriminate.
  - left. reflexivity.
Defined.

(** ** An unrecognized command *)

(** With expected length 0, inputs that do not arm the port again are
    all handled, raise no ['data'] event and leave the length at 0. *)
Lemma disabled_run (es : list input) :
  forall self,
    _length self = 0 ->
    existsb arming es = false ->
    exists self' out,
      run self es = Some (self', out)
      /\ data_frames out = []
      /\ _length self' = 0.
Proof.
  induction es as [|e es IH]; intros self H0 Hna.
  { exists self, []. auto. }
  cbn [existsb] in Hna. apply orb_false_iff in Hna as [He Hes].
  assert (exists s1 o1, step self e = Some (s1, o1)
                        /\ data_frames o1 = [] /\ _length s1 = 0)
    as (s1 & o1 & Hs & Hd & Hl).
  { destruct e as [d|chunk]; cbn [step arming] in *.
    - destruct (Z.lt_ge_cases (blength d) 6) as [Hd|Hd].
      + rewrite write_below_minimum by assumption. eauto.
      + destruct (Z.leb_spec 6 (blength d)); [|lia]. cbn [andb] in He.
        destruct (index_in_range d 0) as [id Hid]; [lia|].
        destruct (index d 1) as [c|] eqn:Hc.
        * rewrite (write_accepted self d id c 0 Hd Hid Hc
                     (answer_length_unrecognized c d He)).
          do 2 eexists. split; [reflexivity|].
          split; [destruct (debug self); reflexivity|reflexivity].
        * destruct (index_in_range d 1) as [c Hc']; [lia|congruence].
    - rewrite onData_waits by (left; lia).
      do 2 eexists. split; [reflexivity|]. split; [reflexivity|exact H0]. }
  destruct (IH s1 Hl Hes) as (s2 & o2 & Hr & Hd2 & Hl2).
  exists s2, (o1 ++ o2). cbn [run]. rewrite Hs. cbn [bind fst snd].
  rewrite Hr. cbn [bind fst snd ret].
  rewrite data_frames_app, Hd, Hd2. auto.
Qed.

(** C8: a [write] of at least 6 bytes with an unrecognized command code
    sets the expected length to 0, and from then on no receive event
    raises a ['data'] event, whatever bytes arrive, for as long as no
    later [write] of a recognized command arms the port again. *)
Theorem unrecognized_command_disables (self : port) (d : buffer) (c : byte) :
  6 <= blength d ->
  index d 1 = Some c ->
  recognized c = false ->
  exists off out,
    write self d = Some (off, out)
    /\ _length off = 0
    /\ forall es,
         existsb arming es = false ->
         exists self' out',
           run off es = Some (self', out') /\ data_frames out' = [].
Proof.
  intros Hl Hc Hn.
  destruct (index_in_range d 0) as [id Hid]; [lia|].
  do 2 eexists.
  split; [apply (write_accepted self d id c 0 Hl Hid Hc
                   (answer_length_unrecognized c d Hn))|].
  split; [reflexivity|].
  intros es Hes.
  match goal with |- exists _ _, run ?off _ = _ /\ _ =>
    destruct (disabled_run es off eq_refl Hes) as (s & o & Hr & Hd & _)
  end.
  eauto.
Qed.

Lemma unrecognized_command_disables_witness :
  exists off out,
    write RTUBufferedPort [x01; x63; x00; x00; x00; x02] = Some (off, out)
    /\ _length off = 0
    /\ forall es,
         existsb arming es = false ->
         exists self' out',
           run off es = Some (self', out') /\ data_frames out' = [].
Proof.
  apply (unrecognized_command_disables RTUBufferedPort
           [x01; x63; x00; x00; x00; x02] x63).
  - vm_compute. discriminate.
  - reflexivity.
  - reflexivity.
Defined.

(** After command 99, an answer shaped like one to command 99, an
    exception answer and a short [write] raise nothing. *)
Example command_99_then_silence :
  run RTUBufferedPort
      [Send [x01; x63; x00; x00; x00; x02];
       Receive [x01; x63; x04; x00; x01; x00; x02; x2a; x32];
       Send [x01; x03];
       Receive [x01; xe3; x02; xc0; xf1]]
  = Some (mkPort [x01; x63; x04; x00; x01; x00; x02; x2a; x32;
                  x01; xe3; x02; xc0; xf1] x01 x63 0 false,
          [client_write [x01; x63; x00; x00; x00; x02]]).
Proof. reflexivity. Qed.

(** ** An answer arriving in pieces *)

Lemma recognized_values (c : byte) :
  recognized c = true ->
  byte_val c = 1 \/ byte_val c = 2 \/ byte_val c = 3 \/ byte_val c = 4
  \/ byte_val c = 5 \/ byte_val c = 6 \/ byte_val c = 15 \/ byte_val c = 16.
Proof.
  unfold recognized. cbv zeta. rewrite !orb_true_iff, !Z.eqb_eq. tauto.
Qed.

(** A recognized command has bit 7 clear. *)
Lemma recognized_bits (c : byte) :
  recognized c = true ->
  (byte_val c =? Z.lor 0x80 (byte_val c)) = false
  /\ (byte_val c =? Z.land 0x7f (byte_val c)) = true.
Proof.
  intros H. apply recognized_values in H.
  repeat (destruct H as [H|H]; [rewrite H; split; reflexivity|]).
  rewrite H. split; reflexivity.
Qed.

Lemma slice_whole (buf : buffer) :
  slice buf 0 (Some (0 + blength buf)) = buf.
Proof.
  unfold slice, adjustOffset. pose proof (blength_nonneg buf).
  change (0 <? 0) with false. cbv iota.
  destruct (Z.ltb_spec (0 + blength buf) 0); [lia|].
  rewrite Z.min_l by lia. rewrite Z.min_l by lia.
  cbn [Z.to_nat skipn]. apply firstn_all2. unfold blength. lia.
Qed.

Lemma slice_past_end (buf : buffer) :
  slice buf (0 + blength buf) None = [].
Proof.
  unfold slice, adjustOffset. pose proof (blength_nonneg buf).
  destruct (Z.ltb_spec (0 + blength buf) 0); [lia|].
  rewrite Z.min_l by lia.
  replace (Z.to_nat (blength buf - (0 + blength buf))) with 0%nat by lia.
  reflexivity.
Qed.

Section Answer.

(** A port armed for an answer that fits under the cap, and that
    answer: [_length self] bytes starting with the unit id and the
    command code. *)
Variable self0 : port.
Variables resp tail : buffer.

Hypothesis Hlen : 6 <= _length self0 <= MAX_BUFFER_LENGTH.
Hypothesis Hcmd : recognized (_cmd self0) = true.
Hypothesis Hresp : resp = _id self0 :: _cmd self0 :: tail.
Hypothesis Hsize : blength resp = _length self0.

(** A chunk that completes the answer raises it and empties the
    buffer; a chunk that leaves it incomplete is kept, and nothing is
    raised. *)
Lemma onData_answer_piece (self : port) (chunk rest : buffer) :
  same_expectation self0 self ->
  resp = (_buffer self ++ chunk) ++ rest ->
  onData self chunk
  = match rest with
    | [] => (set_buffer self0 [], answer_effects self0 resp)
    | _ :: _ => (set_buffer self0 (_buffer self ++ chunk), [])
    end.
Proof.
  intros Hs Hr. rewrite Hs. cbn [set_buffer _buffer].
  set (buf := _buffer self ++ chunk) in *.
  assert (blength buf + blength rest = _length self0) as Hsum.
  { rewrite <- Hsize, Hr. apply eq_sym, blength_app. }
  pose proof (blength_nonneg rest) as Hrest.
  assert (blength buf <= MAX_BUFFER_LENGTH) as Hcap by lia.
  destruct (Z.lt_ge_cases (blength buf) EXCEPTION_LENGTH) as [Hb|Hb].
  { rewrite onData_waits by (right; exact Hb).
    destruct rest as [|r rest']; [|reflexivity].
    unfold blength in Hsum. cbn [List.length] in Hsum.
    unfold EXCEPTION_LENGTH, blength in *. lia. }
  rewrite onData_scans by (cbn [set_buffer _length _buffer]; lia || exact Hb).
  cbn [set_buffer _buffer _length]. fold buf.
  rewrite retained_small by exact Hcap.
  assert (index buf 0 = Some (_id self0)
          /\ index buf (0 + 1) = Some (_cmd self0)) as [Hi0 Hi1].
  { unfold EXCEPTION_LENGTH, blength in Hb. rewrite Hresp in Hr.
    destruct buf as [|a [|b t]]; cbn [List.length] in Hb; try lia.
    cbn [app] in Hr. injection Hr as <- <- _. split; reflexivity. }
  replace (Z.to_nat (blength buf - EXCEPTION_LENGTH + 1))
    with (S (Z.to_nat (blength buf - EXCEPTION_LENGTH)))
    by (unfold EXCEPTION_LENGTH in *; lia).
  cbn [scan set_buffer _buffer _id _cmd].
  rewrite Hi0, Hi1. cbn [strict_eq]. rewrite !Z.eqb_refl. cbn [negb andb].
  destruct (recognized_bits _ Hcmd) as [-> ->]. cbn [andb].
  destruct rest as [|r rest'].
  - assert (blength buf = _length self0) as Hfull.
    { unfold blength in Hsum. cbn [List.length] in Hsum.
      unfold blength. lia. }
    destruct (Z.leb_spec (0 + _length self0) (blength buf)); [|lia].
    unfold _emitData. cbn [set_buffer _buffer debug].
    rewrite <- Hfull, slice_whole, slice_past_end.
    rewrite app_nil_r in Hr. rewrite <- Hr. reflexivity.
  - assert (blength buf < _length self0) as Hpart.
    { unfold blength in Hsum. cbn [List.length] in Hsum.
      unfold blength. lia. }
    destruct (Z.leb_spec (0 + _length self0) (blength buf)); [lia|].
    reflexivity.
Qed.

(** The bytes still missing, arriving one at a time. *)
Lemma feed_bytewise_rest (bs : buffer) :
  forall self,
    same_expectation self0 self ->
    blength (_buffer self) < _length self0 ->
    resp = _buffer self ++ bs ->
    feed self (bytewise bs) = (set_buffer self0 [], answer_effects self0 resp).
Proof.
  induction bs as [|b bs IH]; intros self Hs Hlt Hr.
  { rewrite app_nil_r in Hr. rewrite <- Hr in Hlt. lia. }
  cbn [bytewise map feed]. fold (bytewise bs).
  rewrite (onData_answer_piece self [b] bs Hs)
    by (rewrite <- app_assoc; exact Hr).
  destruct bs as [|b' bs'].
  - cbn [bytewise map feed fst snd]. now rewrite app_nil_r.
  - cbn [fst snd app].
    apply IH.
    + reflexivity.
    + cbn [set_buffer _buffer]. rewrite <- Hsize, Hr.
      rewrite !blength_app. unfold blength. cbn [List.length]. lia.
    + cbn [set_buffer _buffer]. rewrite <- app_assoc. exact Hr.
Qed.

Lemma feed_bytewise_answer :
  feed (set_buffer self0 []) (bytewise resp)
  = (set_buffer self0 [], answer_effects self0 resp).
Proof.
  apply feed_bytewise_rest.
  - reflexivity.
  - cbn [set_buffer _buffer]. change (blength []) with 0. lia.
  - reflexivity.
Qed.

Lemma onData_whole_answer :
  onData (set_buffer self0 []) resp = (set_buffer self0 [], answer_effects self0 resp).
Proof.
  apply (onData_answer_piece (set_buffer self0 []) resp []).
  - reflexivity.
  - cbn [set_buffer _buffer app]. now rewrite app_nil_r.
Qed.

End Answer.

(** What an accepted [write] stores. *)
Lemma write_accepted_inv (self armed : port) (d : buffer) (out : list effect) :
  6 <= blength d ->
  write self d = Some (armed, out) ->
  index d 0 = Some (_id armed)
  /\ index d 1 = Some (_cmd armed)
  /\ answer_length (_cmd armed) d = Some (_length armed)
  /\ _buffer armed = _buffer self
  /\ debug armed = debug self.
Proof.
  intros Hl Hw.
  destruct (index_in_range d 0) as [id H0]; [lia|].
  destruct (index_in_range d 1) as [cmd H1]; [lia|].
  destruct (answer_length_total cmd d Hl) as [len Ha].
  rewrite (write_accepted self d id cmd len Hl H0 H1 Ha) in Hw.
  injection Hw as <- _. cbn [_id _cmd _length _buffer debug]. auto.
Qed.

(** C6, as the code has it: for a request of a recognized command whose
    expected length is at least 6 and at most 256, and an answer of
    exactly that length starting with the unit id and the command code,
    delivering the answer to an empty buffer one byte at a time does what
    delivering it as a single chunk does: the same effects, among them
    exactly one ['data'] event carrying the answer, and the same port,
    with an empty buffer. *)
Theorem answer_bytewise_same_as_single
        (self armed : port) (d : buffer) (c : byte) (out : list effect)
        (resp tail : buffer) :
  _buffer self = [] ->
  6 <= blength d ->
  index d 1 = Some c ->
  recognized c = true ->
  write self d = Some (armed, out) ->
  6 <= _length armed <= MAX_BUFFER_LENGTH ->
  resp = _id armed :: _cmd armed :: tail ->
  blength resp = _length armed ->
  feed armed (bytewise resp) = onData armed resp
  /\ data_frames (snd (feed armed (bytewise resp))) = [resp]
  /\ data_frames (snd (onData armed resp)) = [resp]
  /\ _buffer (fst (feed armed (bytewise resp))) = []
  /\ _buffer (fst (onData armed resp)) = [].
Proof.
  intros Hempty Hl Hc Hrec Hw Hlen Hresp Hsize.
  destruct (write_accepted_inv self armed d out Hl Hw)
    as (_ & Hc' & _ & Hbuf & _).
  assert (recognized (_cmd armed) = true) as Hcmd by congruence.
  rewrite Hempty in Hbuf. clear Hw Hc Hc' Hrec.
  destruct armed as [b i c' l dbg]. cbn [_buffer] in Hbuf. subst b.
  change (mkPort [] i c' l dbg) with (set_buffer (mkPort [] i c' l dbg) []).
  rewrite (feed_bytewise_answer _ resp tail Hlen Hcmd Hresp Hsize).
  rewrite (onData_whole_answer _ resp tail Hlen Hcmd Hresp Hsize).
  unfold answer_effects. cbn [fst snd set_buffer _buffer debug].
  rewrite data_frames_app. destruct dbg; repeat split; reflexivity.
Qed.

Lemma answer_bytewise_same_as_single_witness :
  let armed := mkPort [] x01 x03 9 false in
  let resp := [x01; x03; x04; x00; x01; x00; x02; x2a; x32] in
  feed armed (bytewise resp) = onData armed resp
  /\ data_frames (snd (feed armed (bytewise resp))) = [resp]
  /\ data_frames (snd (onData armed resp)) = [resp]
  /\ _buffer (fst (feed armed (bytewise resp))) = []
  /\ _buffer (fst (onData armed resp)) = [].
Proof.
  apply (answer_bytewise_same_as_single RTUBufferedPort
           (mkPort [] x01 x03 9 false) [x01; x03; x00; x00; x00; x02] x03
           [client_write [x01; x03; x00; x00; x00; x02]]
           [x01; x03; x04; x00; x01; x00; x02; x2a; x32]
           [x04; x00; x01; x00; x02; x2a; x32]).
  - reflexivity.
  - vm_compute. discriminate.
  - reflexivity.
  - reflexivity.
  - reflexivity.
  - cbn. unfold MAX_BUFFER_LENGTH. lia.
  - reflexivity.
  - reflexivity.
Defined.

(** C6 as stated fails at both ends of the window.  A read of zero coils
    is a request of a recognized command with expected length 5, below
    the handler's minimum of 6: its 5-byte answer is never raised.  A
    read of 126 registers has expected length 257, above the cap: the
    head of its answer is cut off and the answer is never raised. *)
Lemma answer_outside_window_not_raised :
  (exists armed out resp,
      write RTUBufferedPort [x01; x01; x00; x00; x00; x00] = Some (armed, out)
      /\ recognized (_cmd armed) = true
      /\ resp = [_id armed; _cmd armed; x00; x71; x88]
      /\ blength resp = _length armed
      /\ data_frames (snd (feed armed (bytewise resp))) = []
      /\ data_frames (snd (onData armed resp)) = []
      /\ data_frames (snd (feed armed (bytewise resp))) <> [resp])
  /\ (exists armed out resp,
         write RTUBufferedPort [x01; x03; x00; x00; x00; x7e]
         = Some (armed, out)
         /\ recognized (_cmd armed) = true
         /\ resp = _id armed :: _cmd armed :: xfc :: repeat x00 254
         /\ blength resp = _length armed
         /\ data_frames (snd (feed armed (bytewise resp))) = []
         /\ data_frames (snd (onData armed resp)) = []
         /\ data_frames (snd (feed armed (bytewise resp))) <> [resp]).
Proof.
  split.
  - do 3 eexists. split; [reflexivity|]. split; [reflexivity|].
    split; [reflexivity|]. split; [reflexivity|].
    split; [reflexivity|]. split; [reflexivity|]. discriminate.
  - do 3 eexists. split; [reflexivity|]. split; [reflexivity|].
    split; [reflexivity|]. split; [vm_compute; reflexivity|].
    split; [vm_compute; reflexivity|]. split; [vm_compute; reflexivity|].
    vm_compute. discriminate.
Qed.

(** ** The debug record of a received frame *)

(** With [debug] on, a frame is raised together with one debug record,
    whose data is the frame and whose action is spelled ["recive"]. *)
Lemma onData_debug_record (self : port) (chunk frame : buffer) :
  debug self = true ->
  In frame (data_frames (snd (onData self chunk))) ->
  snd (onData self chunk)
  = [emit_debug {| action := "recive"; data := frame |}; emit_data frame].
Proof.
  intros Hd Hin.
  destruct (onData_cases self chunk)
    as [H|[[_ H]|(HL & j & len & Hj & Hm & H)]]; rewrite H in *;
    try contradiction.
  rewrite data_frames_emitData in Hin. destruct Hin as [<-|[]].
  unfold _emitData. cbn [snd set_buffer debug _buffer]. rewrite Hd.
  reflexivity.
Qed.

(** C9, on the code: with [debug] on, after the send of
    [01 03 00 00 00 02] the 9-byte answer is raised together with a
    debug record whose data is the frame but whose action is
    ["recive"], not ["receive"]; the send's own record has action
    ["send"]. *)
Theorem debug_record_action_misspelt :
  let frame := [x01; x03; x04; x00; x01; x00; x02; x2a; x32] in
  exists armed,
    write (set_debug RTUBufferedPort true) [x01; x03; x00; x00; x00; x02]
    = Some (armed,
            [emit_debug {| action := "send";
                           data := [x01; x03; x00; x00; x00; x02] |};
             client_write [x01; x03; x00; x00; x00; x02]])
    /\ snd (onData armed frame)
       = [emit_debug {| action := "recive"; data := frame |};
          emit_data frame]
    /\ debug_records (snd (onData armed frame))
       <> [{| action := "receive"; data := frame |}].
Proof.
  eexists. split; [reflexivity|]. split; [reflexivity|].
  cbn. discriminate.
Qed.

(** * Further properties of the port *)

(** ** More on slices and indices *)

Lemma index_app_r (a b : buffer) (k : Z) :
  0 <= k -> index (a ++ b) (blength a + k) = index b k.
Proof.
  intros Hk. unfold index, blength.
  destruct (Z.ltb_spec (Z.of_nat (List.length a) + k) 0); [lia|].
  destruct (Z.ltb_spec k 0); [lia|].
  rewrite nth_error_app2 by lia. f_equal. lia.
Qed.

Lemma slice_middle (a b c : buffer) :
  slice (a ++ b ++ c) (blength a) (Some (blength a + blength b)) = b.
Proof.
  unfold slice, adjustOffset.
  pose proof (blength_nonneg a). pose proof (blength_nonneg b).
  pose proof (blength_nonneg c).
  destruct (Z.ltb_spec (blength a) 0); [lia|].
  destruct (Z.ltb_spec (blength a + blength b) 0); [lia|].
  rewrite !blength_app. rewrite !Z.min_l by lia.
  replace (Z.to_nat (blength a)) with (List.length a + 0)%nat
    by (unfold blength; lia).
  rewrite skipn_app, skipn_all2 by lia.
  replace (List.length a + 0 - List.length a)%nat with 0%nat by lia.
  cbn [skipn app].
  replace (Z.to_nat (blength a + blength b - blength a))
    with (List.length b + 0)%nat by (unfold blength; lia).
  rewrite firstn_app_2. cbn [firstn]. apply app_nil_r.
Qed.

Lemma slice_after (a b c : buffer) :
  slice (a ++ b ++ c) (blength a + blength b) None = c.
Proof.
  unfold slice, adjustOffset.
  pose proof (blength_nonneg a). pose proof (blength_nonneg b).
  pose proof (blength_nonneg c).
  destruct (Z.ltb_spec (blength a + blength b) 0); [lia|].
  rewrite !blength_app. rewrite Z.min_l by lia.
  rewrite app_assoc.
  replace (Z.to_nat (blength a + blength b))
    with (List.length (a ++ b) + 0)%nat
    by (rewrite length_app; unfold blength; lia).
  rewrite skipn_app, skipn_all2 by lia.
  replace (List.length (a ++ b) + 0 - List.length (a ++ b))%nat
    with 0%nat by lia.
  cbn [skipn app]. apply firstn_all2. unfold blength. lia.
Qed.

(** A slice whose first two cells are inside the buffer starts with
    them, whether or not the rest of it is there. *)
Lemma slice_header (buf : buffer) (start length : Z) (a b : byte) :
  0 <= start -> 2 <= length ->
  index buf start = Some a -> index buf (start + 1) = Some b ->
  exists rest,
    slice buf start (Some (start + length)) = a :: b :: rest
    /\ blength (slice buf start (Some (start + length))) <= length.
Proof.
  intros Hs Hl Ha Hb.
  pose proof (index_Some_bounds _ _ _ Hb) as Hin.
  assert (blength (slice buf start (Some (start + length))) <= length) as Hlen.
  { unfold slice, adjustOffset, blength in *.
    destruct (Z.ltb_spec start 0); [lia|].
    destruct (Z.ltb_spec (start + length) 0); [lia|].
    rewrite length_firstn, length_skipn. lia. }
  split with (x := skipn 2 (slice buf start (Some (start + length)))).
  split; [|exact Hlen]. clear Hlen.
  unfold slice, adjustOffset.
  destruct (Z.ltb_spec start 0); [lia|].
  destruct (Z.ltb_spec (start + length) 0); [lia|].
  rewrite (Z.min_l start) by lia.
  unfold index in Ha, Hb.
  destruct (Z.ltb_spec start 0); [lia|].
  destruct (Z.ltb_spec (start + 1) 0); [lia|].
  replace (Z.to_nat (start + 1)) with (S (Z.to_nat start)) in Hb by lia.
  assert (exists k, Z.to_nat (Z.min (start + length) (blength buf) - start)
                    = S (S k)) as [k ->].
  { exists (Z.to_nat (Z.min (start + length) (blength buf) - start - 2)). lia. }
  revert Ha Hb. generalize (Z.to_nat start) as n. intros n Ha Hb.
  assert (n < List.length buf)%nat as Hn.
  { apply nth_error_Some. congruence. }
  rewrite <- (firstn_skipn n buf) in Ha, Hb.
  rewrite nth_error_app2 in Ha, Hb by (rewrite length_firstn; lia).
  rewrite length_firstn in Ha, Hb.
  replace (n - Nat.min n (List.length buf))%nat with 0%nat in Ha by lia.
  replace (S n - Nat.min n (List.length buf))%nat with 1%nat in Hb by lia.
  destruct (skipn n buf) as [|x [|y t]]; simpl in Ha, Hb; try discriminate.
  injection Ha as ->. injection Hb as ->. reflexivity.
Qed.

(** ** Offsets the scanner passes over *)

Lemma scan_step_skip (self : port) (expectedLength bufferLength : Z)
      (n : nat) (i : Z) :
  skips self i = true ->
  scan self expectedLength bufferLength (S n) i
  = scan self expectedLength bufferLength n (i + 1).
Proof.
  unfold skips. cbv zeta. cbn [scan]. intros H.
  destruct (strict_eq (index (_buffer self) i) (byte_val (_id self)));
    cbn [negb orb] in *; [|reflexivity].
  apply negb_true_iff in H. rewrite !orb_false_iff in H.
  destruct H as [[-> ->] ->]. reflexivity.
Qed.

Lemma scan_skip (self : port) (expectedLength bufferLength : Z) (k : nat) :
  forall n i,
    (forall m, (m < k)%nat -> skips self (i + Z.of_nat m) = true) ->
    scan self expectedLength bufferLength (k + n) i
    = scan self expectedLength bufferLength n (i + Z.of_nat k).
Proof.
  induction k as [|k IH]; intros n i H.
  { cbn [Nat.add]. f_equal. cbn. lia. }
  cbn [Nat.add]. rewrite scan_step_skip.
  - rewrite IH.
    + f_equal. lia.
    + intros m Hm. replace (i + 1 + Z.of_nat m) with (i + Z.of_nat (S m)) by lia.
      apply H. lia.
  - replace i with (i + Z.of_nat 0) by (cbn; lia). apply H. lia.
Qed.

Lemma all_skipped_spec (self : port) (k m : nat) :
  all_skipped self k = true -> (m < k)%nat ->
  skips self (0 + Z.of_nat m) = true.
Proof.
  unfold all_skipped. intros H Hm. rewrite forallb_forall in H.
  apply H. apply in_seq. lia.
Qed.

(** The scan of a buffer whose first match is at the end of [junk]. *)
Lemma scan_after_junk (self : port) (junk : buffer)
      (expectedLength bufferLength : Z) :
  all_skipped self (List.length junk) = true ->
  blength junk + EXCEPTION_LENGTH <= bufferLength ->
  scan self expectedLength bufferLength
       (Z.to_nat (bufferLength - EXCEPTION_LENGTH + 1)) 0
  = scan self expectedLength bufferLength
         (S (Z.to_nat (bufferLength - EXCEPTION_LENGTH - blength junk)))
         (blength junk).
Proof.
  intros Hskip Hb. unfold EXCEPTION_LENGTH, blength in *.
  replace (Z.to_nat (bufferLength - 5 + 1))
    with (List.length junk
          + S (Z.to_nat (bufferLength - 5 - Z.of_nat (List.length junk))))%nat
    by lia.
  rewrite scan_skip; [reflexivity|].
  intros m Hm. now apply all_skipped_spec with (k := List.length junk).
Qed.

(** ** Resynchronization *)



(** X2: the same for an exception answer, when the command is a
    recognized one: after bytes the scanner passes over, the 5 bytes
    starting with the unit id and [0x80 | command code] are raised,
    whatever the expected length, and what follows them is kept. *)
Theorem onData_exception_after_junk
        (self : port) (chunk junk rest : buffer) (f e lo hi : byte) :
  6 <= _length self ->
  recognized (_cmd self) = true ->
  byte_val f = Z.lor 0x80 (byte_val (_cmd self)) ->
  _buffer self ++ chunk = junk ++ [_id self; f; e; lo; hi] ++ rest ->
  blength (_buffer self ++ chunk) <= MAX_BUFFER_LENGTH ->
  all_skipped (set_buffer self (_buffer self ++ chunk)) (List.length junk)
  = true ->
  onData self chunk
  = (set_buffer self rest, answer_effects self [_id self; f; e; lo; hi]).
Proof.
  intros HL Hrec Hf Hbuf Hcap Hskip.
  set (frame := [_id self; f; e; lo; hi]) in *.
  assert (blength (_buffer self ++ chunk)
          = blength junk + blength frame + blength rest) as Hlen.
  { rewrite Hbuf, !blength_app. lia. }
  assert (blength frame = EXCEPTION_LENGTH) as Hsize by reflexivity.
  pose proof (blength_nonneg rest) as Hrest.
  pose proof (blength_nonneg junk) as Hjunk.
  rewrite onData_scans by (rewrite ?Hlen, ?Hsize; lia).
  rewrite retained_small by exact Hcap.
  rewrite (scan_after_junk _ junk) by
      (cbn [set_buffer _length]; auto; rewrite Hlen, Hsize; lia).
  assert (index (_buffer self ++ chunk) (blength junk) = Some (_id self)
          /\ index (_buffer self ++ chunk) (blength junk + 1) = Some f)
    as [Hi0 Hi1].
  { rewrite Hbuf. split.
    - replace (blength junk) with (blength junk + 0) at 1 by lia.
      now rewrite index_app_r by lia.
    - now rewrite index_app_r by lia. }
  cbn [scan set_buffer _buffer _id _cmd _length].
  rewrite Hi0, Hi1. cbn [strict_eq]. rewrite Z.eqb_refl. cbn [negb].
  destruct (recognized_bits _ Hrec) as [Hne _].
  rewrite Hf. rewrite Z.eqb_sym, Hne, Z.eqb_refl. cbn [andb].
  destruct (Z.leb_spec (blength junk + EXCEPTION_LENGTH)
                       (blength (_buffer self ++ chunk))); [|lia].
  unfold _emitData, answer_effects. cbn [set_buffer _buffer debug].
  rewrite Hbuf, <- Hsize, slice_middle, slice_after. reflexivity.
Qed.

Lemma onData_exception_after_junk_witness :
  onData (mkPort [x00; x00] x11 x10 8 true) [x11; x90; x02; xcd; xc1; x11]
  = (set_buffer (mkPort [x00; x00] x11 x10 8 true) [x11],
     answer_effects (mkPort [x00; x00] x11 x10 8 true)
                    [x11; x90; x02; xcd; xc1]).
Proof.
  apply (onData_exception_after_junk (mkPort [x00; x00] x11 x10 8 true)
           [x11; x90; x02; xcd; xc1; x11] [x00; x00] [x11] x90 x02 xcd xc1).
  - cbn. lia.
  - reflexivity.
  - reflexivity.
  - reflexivity.
  - vm_compute. discriminate.
  - reflexivity.
Defined.



(** ** What a receive event keeps *)

(** The handler changes nothing but the buffer. *)
Lemma onData_same_expectation (self : port) (chunk : buffer) :
  same_expectation self (fst (onData self chunk)).
Proof.
  unfold same_expectation.
  destruct (onData_cases self chunk)
    as [H|[[_ H]|(HL & j & len & Hj & Hm & H)]]; rewrite H; reflexivity.
Qed.

(** X4: whatever the buffer held and whatever arrives, also past 256
    bytes, a frame carried by a ['data'] event starts with the unit id
    followed by the command code or [0x80 | command code], and has at
    least 2 and at most [min(expected length, 256)] bytes. *)
Theorem onData_frame_header (self : port) (chunk frame : buffer) :
  In frame (data_frames (snd (onData self chunk))) ->
  exists f rest,
    frame = _id self :: f :: rest
    /\ (f = _cmd self \/ byte_val f = Z.lor 0x80 (byte_val (_cmd self)))
    /\ blength frame <= _length self
    /\ blength frame <= MAX_BUFFER_LENGTH.
Proof.
  intros Hin.
  destruct (onData_cases self chunk)
    as [H|[[_ H]|(HL & j & len & Hj & Hm & H)]]; rewrite H in Hin;
    try contradiction.
  rewrite data_frames_emitData in Hin. destruct Hin as [<-|[]].
  pose proof (retained_le (_buffer self ++ chunk)) as Hcap.
  cbn [set_buffer _buffer _id _cmd] in *.
  assert (blength (slice (retained (_buffer self ++ chunk)) j (Some (j + len)))
          <= MAX_BUFFER_LENGTH) as Hmax.
  { etransitivity; [apply length_slice_le|exact Hcap]. }
  destruct Hm as [f Hi Hf Hv -> Ha | f Hi Hf Hv -> Ha];
    cbn [set_buffer _buffer _id _cmd] in *.
  - destruct (slice_header _ j (_length self) _ f Hj ltac:(lia) Hi Hf)
      as (rest & Hs & Hlen).
    apply byte_val_inj in Hv. subst f.
    exists (_cmd self), rest. rewrite <- Hs. auto.
  - destruct (slice_header _ j EXCEPTION_LENGTH _ f Hj
                ltac:(unfold EXCEPTION_LENGTH; lia) Hi Hf)
      as (rest & Hs & Hlen).
    exists f, rest. rewrite <- Hs.
    unfold EXCEPTION_LENGTH in *. repeat split; auto; lia.
Qed.

Lemma onData_frame_header_witness :
  exists f rest,
    [x01; x03; x00; x00; x00; x00]
    = _id (mkPort [] x01 x03 9 false) :: f :: rest
    /\ (f = _cmd (mkPort [] x01 x03 9 false)
        \/ byte_val f
           = Z.lor 0x80 (byte_val (_cmd (mkPort [] x01 x03 9 false))))
    /\ blength [x01; x03; x00; x00; x00; x00]
       <= _length (mkPort [] x01 x03 9 false)
    /\ blength [x01; x03; x00; x00; x00; x00] <= MAX_BUFFER_LENGTH.
Proof.
  apply (onData_frame_header (mkPort [] x01 x03 9 false)
           (repeat xff 4 ++ repeat x00 250
            ++ [x01; x03; x00; x00; x00; x00])).
  vm_compute. left. reflexivity.
Defined.

(** X5: receive events never touch the expectation: after any sequence
    of chunks, whether or not frames were raised, [_id], [_cmd],
    [_length] and [debug] are what they were. *)
Theorem feed_keeps_expectation (chunks : list buffer) (self : port) :
  _id (fst (feed self chunks)) = _id self
  /\ _cmd (fst (feed self chunks)) = _cmd self
  /\ _length (fst (feed self chunks)) = _length self
  /\ debug (fst (feed self chunks)) = debug self.
Proof.
  revert self. induction chunks as [|c chunks IH]; intros self; [auto|].
  cbn [feed fst].
  destruct (IH (fst (onData self c))) as (H1 & H2 & H3 & H4).
  rewrite H1, H2, H3, H4, (onData_same_expectation self c). auto.
Qed.

(** X6: overflow keeps the newest bytes.  With an expected length of at
    least 6, when the buffer after the append holds more than 256 bytes
    and no frame is raised, the buffer left is exactly the last 256 of
    those bytes. *)
Theorem onData_overflow_keeps_newest (self : port) (chunk : buffer) :
  6 <= _length self ->
  MAX_BUFFER_LENGTH < blength (_buffer self ++ chunk) ->
  data_frames (snd (onData self chunk)) = [] ->
  exists dropped,
    _buffer self ++ chunk = dropped ++ _buffer (fst (onData self chunk))
    /\ blength (_buffer (fst (onData self chunk))) = MAX_BUFFER_LENGTH.
Proof.
  intros HL Hover Hnone.
  rewrite onData_scans in * by (unfold EXCEPTION_LENGTH, MAX_BUFFER_LENGTH in *;
                                 lia).
  match type of Hnone with context [scan ?s ?l ?b ?n 0] =>
    destruct (scan_cases s l b n 0) as [H|(j & len & _ & _ & H)]; [lia| |];
    rewrite H in *
  end.
  2:{ rewrite data_frames_emitData in Hnone. discriminate. }
  cbn [fst set_buffer _buffer]. unfold retained.
  destruct (Z.gtb_spec (blength (_buffer self ++ chunk)) MAX_BUFFER_LENGTH);
    [|lia].
  set (buf := _buffer self ++ chunk) in *.
  unfold slice, adjustOffset, MAX_BUFFER_LENGTH in *.
  change (- (256) <? 0) with true. cbv iota.
  rewrite Z.max_r by lia.
  rewrite firstn_all2 by (rewrite length_skipn; unfold blength; lia).
  exists (firstn (Z.to_nat (- (256) + blength buf)) buf).
  split; [now rewrite firstn_skipn|].
  unfold blength in *. rewrite length_skipn. lia.
Qed.

Lemma onData_overflow_keeps_newest_witness :
  exists dropped,
    _buffer (mkPort [x05] x01 x03 9 false) ++ repeat x00 300
    = dropped
      ++ _buffer (fst (onData (mkPort [x05] x01 x03 9 false) (repeat x00 300)))
    /\ blength (_buffer (fst (onData (mkPort [x05] x01 x03 9 false)
                                     (repeat x00 300))))
       = MAX_BUFFER_LENGTH.
Proof.
  apply (onData_overflow_keeps_newest (mkPort [x05] x01 x03 9 false)
           (repeat x00 300)).
  - cbn. lia.
  - vm_compute. reflexivity.
  - vm_compute. reflexivity.
Defined.

(** X7: below the cap nothing is lost silently: when the buffer after
    the append holds at most 256 bytes and no frame is raised, the
    buffer left is the old buffer followed by the chunk, whatever the
    expectation. *)
Theorem onData_no_frame_keeps_all (self : port) (chunk : buffer) :
  blength (_buffer self ++ chunk) <= MAX_BUFFER_LENGTH ->
  data_frames (snd (onData self chunk)) = [] ->
  onData self chunk = (set_buffer self (_buffer self ++ chunk), []).
Proof.
  intros Hcap Hnone.
  destruct (onData_cases self chunk)
    as [H|[[_ H]|(HL & j & len & Hj & Hm & H)]].
  - exact H.
  - rewrite retained_small in H by exact Hcap. exact H.
  - rewrite H, data_frames_emitData in Hnone. discriminate.
Qed.

Lemma onData_no_frame_keeps_all_witness :
  onData (mkPort [x01; x03] x01 x03 9 false) [x04; x00; x01]
  = (set_buffer (mkPort [x01; x03] x01 x03 9 false)
                ([x01; x03] ++ [x04; x00; x01]), []).
Proof.
  apply (onData_no_frame_keeps_all (mkPort [x01; x03] x01 x03 9 false)
           [x04; x00; x01]).
  - vm_compute. discriminate.
  - reflexivity.
Defined.

(** X8: a port whose expected length is below 6 (fresh, after an
    unrecognized command, or after a read of quantity 0) only
    accumulates: over any sequence of chunks it raises nothing and ends
    with the old buffer followed by all the chunks, with no cap. *)
Theorem feed_disabled_accumulates (chunks : list buffer) (self : port) :
  _length self < 6 ->
  feed self chunks = (set_buffer self (_buffer self ++ List.concat chunks), []).
Proof.
  revert self. induction chunks as [|c chunks IH]; intros self HL.
  { cbn [feed List.concat]. rewrite app_nil_r. now destruct self. }
  cbn [feed List.concat]. rewrite onData_waits by now left.
  cbn [fst snd app]. rewrite IH by exact HL.
  cbn [fst snd set_buffer _buffer]. now rewrite app_assoc.
Qed.

Lemma feed_disabled_accumulates_witness :
  feed (mkPort [] x01 x01 5 false)
       [[x01; x01; x00]; repeat x00 300; [x71; x88]]
  = (set_buffer (mkPort [] x01 x01 5 false)
                (_buffer (mkPort [] x01 x01 5 false)
                 ++ List.concat [[x01; x01; x00]; repeat x00 300; [x71; x88]]),
     []).
Proof.
  apply (feed_disabled_accumulates
           [[x01; x01; x00]; repeat x00 300; [x71; x88]]
           (mkPort [] x01 x01 5 false)).
  reflexivity.
Defined.

(** X9: an answer inside the window is reassembled the same however the
    serial client cuts it: for a port with a recognized command, an
    expected length from 6 to 256 and an empty buffer, any sequence of
    chunks (empty ones included) whose concatenation is the answer has
    the effects of the answer arriving whole, and leaves the buffer
    empty. *)
Theorem feed_any_chunking
        (self0 : port) (resp tail : buffer) (chunks : list buffer) :
  6 <= _length self0 <= MAX_BUFFER_LENGTH ->
  recognized (_cmd self0) = true ->
  resp = _id self0 :: _cmd self0 :: tail ->
  blength resp = _length self0 ->
  List.concat chunks = resp ->
  feed (set_buffer self0 []) chunks = onData (set_buffer self0 []) resp
  /\ feed (set_buffer self0 []) chunks
     = (set_buffer self0 [], answer_effects self0 resp).
Proof.
  intros Hlen Hcmd Hresp Hsize Hcat.
  rewrite (onData_whole_answer self0 resp tail Hlen Hcmd Hresp Hsize).
  enough (feed (set_buffer self0 []) chunks
          = (set_buffer self0 [], answer_effects self0 resp)) as H
      by (split; exact H).
  assert (forall cs, List.concat cs = [] ->
                     feed (set_buffer self0 []) cs = (set_buffer self0 [], []))
    as Hdone.
  { induction cs as [|c cs IH]; intros Hc; [reflexivity|].
    cbn [List.concat] in Hc. apply app_eq_nil in Hc as [-> Hc].
    cbn [feed]. rewrite onData_waits
      by (right; cbn [set_buffer _buffer app]; reflexivity).
    pose proof (IH Hc) as E. unfold set_buffer in E |- *.
    cbn [fst snd app _buffer _id _cmd _length debug] in E |- *.
    rewrite E. reflexivity. }
  assert (forall cs self,
             same_expectation self0 self ->
             blength (_buffer self) < _length self0 ->
             resp = _buffer self ++ List.concat cs ->
             feed self cs = (set_buffer self0 [], answer_effects self0 resp))
    as Hgo.
  { induction cs as [|c cs IH]; intros self Hs Hlt Hr.
    { cbn [List.concat] in Hr. rewrite app_nil_r in Hr.
      rewrite <- Hr in Hlt. lia. }
    cbn [List.concat] in Hr. rewrite app_assoc in Hr.
    cbn [feed].
    rewrite (onData_answer_piece self0 resp tail Hlen Hcmd Hresp Hsize
               self c (List.concat cs) Hs Hr).
    destruct (List.concat cs) as [|b bs] eqn:Hcs.
    - cbn [fst snd]. rewrite (Hdone cs Hcs). cbn [fst snd].
      now rewrite app_nil_r.
    - cbn [fst snd app].
      rewrite (IH (set_buffer self0 (_buffer self ++ c))).
      + reflexivity.
      + reflexivity.
      + cbn [set_buffer _buffer]. rewrite <- Hsize, Hr.
        rewrite (blength_app _ (b :: bs)). unfold blength at 3.
        cbn [List.length]. lia.
      + exact Hr. }
  apply Hgo.
  - reflexivity.
  - cbn [set_buffer _buffer]. change (blength []) with 0. lia.
  - cbn [set_buffer _buffer app]. now rewrite Hcat.
Qed.

Lemma feed_any_chunking_witness :
  feed (set_buffer (mkPort [] x01 x03 9 true) [])
       [[x01]; []; [x03; x04; x00]; [x01; x00; x02; x2a]; [x32]; []]
  = onData (set_buffer (mkPort [] x01 x03 9 true) [])
           [x01; x03; x04; x00; x01; x00; x02; x2a; x32]
  /\ feed (set_buffer (mkPort [] x01 x03 9 true) [])
          [[x01]; []; [x03; x04; x00]; [x01; x00; x02; x2a]; [x32]; []]
     = (set_buffer (mkPort [] x01 x03 9 true) [],
        answer_effects (mkPort [] x01 x03 9 true)
                       [x01; x03; x04; x00; x01; x00; x02; x2a; x32]).
Proof.
  apply (feed_any_chunking (mkPort [] x01 x03 9 true)
           [x01; x03; x04; x00; x01; x00; x02; x2a; x32]
           [x04; x00; x01; x00; x02; x2a; x32]
           [[x01]; []; [x03; x04; x00]; [x01; x00; x02; x2a]; [x32]; []]).
  - cbn. unfold MAX_BUFFER_LENGTH. lia.
  - reflexivity.
  - reflexivity.
  - reflexivity.
  - reflexivity.
Defined.

(** ** More on [write] *)

(** X10: for a request of at least 6 bytes whose command code is 3 or
    4, [write] stores the expected length [3 + 2 * q + 2], where [q] is
    the big-endian 16-bit quantity at offset 4. *)
Theorem write_words_expected_length (self : port) (d : buffer) (c : byte) :
  6 <= blength d ->
  index d 1 = Some c ->
  byte_val c = 3 \/ byte_val c = 4 ->
  exists q self' out,
    readUInt16BE d 4 = Some q
    /\ 0 <= q <= 65535
    /\ write self d = Some (self', out)
    /\ _length self' = 3 + 2 * q + 2.
Proof.
  intros Hl Hc Hv.
  destruct (readUInt16BE_in_range d 4) as (q & Hq & Hr); [lia|lia|].
  destruct (index_in_range d 0) as [id H0]; [lia|].
  exists q. do 2 eexists.
  split; [exact Hq|]. split; [exact Hr|].
  split; [apply (write_accepted self d id c _ Hl H0 Hc
                   (answer_length_words c d q Hv Hq))|].
  reflexivity.
Qed.

Lemma write_words_expected_length_witness :
  exists q self' out,
    readUInt16BE [x11; x04; x00; x08; x00; x7d] 4 = Some q
    /\ 0 <= q <= 65535
    /\ write RTUBufferedPort [x11; x04; x00; x08; x00; x7d] = Some (self', out)
    /\ _length self' = 3 + 2 * q + 2.
Proof.
  apply (write_words_expected_length RTUBufferedPort
           [x11; x04; x00; x08; x00; x7d] x04).
  - vm_compute. discriminate.
  - reflexivity.
  - right. reflexivity.
Defined.

Lemma write_keeps_debug (self self' : port) (d : buffer) (out : list effect) :
  write self d = Some (self', out) -> debug self' = debug self.
Proof.
  unfold write. destruct (blength d <? 6).
  - intros [= <- _]. reflexivity.
  - destruct (index d 0); [|discriminate]. destruct (index d 1); [|discriminate].
    cbn [bind]. destruct (answer_length b0 d); [|discriminate].
    cbn [bind ret]. intros [= <- _]. reflexivity.
Qed.

(** X11: an accepted request is remembered and forwarded: [write]
    stores its first byte as the unit id and its second as the command
    code, hands the request itself, once, to the serial client, raises
    no ['data'] event, raises one ["send"] debug record exactly when
    [debug] is on, and leaves the inbound buffer and the [debug] switch
    alone (bytes buffered before the send are still there after it). *)
Theorem write_forwards_request (self : port) (d : buffer) :
  6 <= blength d ->
  exists id cmd self' out,
    index d 0 = Some id /\ index d 1 = Some cmd
    /\ write self d = Some (self', out)
    /\ _id self' = id /\ _cmd self' = cmd
    /\ _buffer self' = _buffer self /\ debug self' = debug self
    /\ client_writes out = [d]
    /\ data_frames out = []
    /\ debug_records out
       = if debug self then [{| action := "send"; data := d |}] else [].
Proof.
  intros Hl.
  destruct (index_in_range d 0) as [id H0]; [lia|].
  destruct (index_in_range d 1) as [cmd H1]; [lia|].
  destruct (answer_length_total cmd d Hl) as [len Ha].
  exists id, cmd. do 2 eexists.
  split; [exact H0|]. split; [exact H1|].
  split; [apply (write_accepted self d id cmd len Hl H0 H1 Ha)|].
  cbn [_id _cmd _buffer debug].
  destruct (debug self); repeat split; reflexivity.
Qed.

Lemma write_forwards_request_witness :
  exists id cmd self' out,
    index [x11; x06; x00; x01; x00; x03; x9a; x9b] 0 = Some id
    /\ index [x11; x06; x00; x01; x00; x03; x9a; x9b] 1 = Some cmd
    /\ write (mkPort [xaa; xbb] x01 x03 9 true)
             [x11; x06; x00; x01; x00; x03; x9a; x9b]
       = Some (self', out)
    /\ _id self' = id /\ _cmd self' = cmd
    /\ _buffer self' = _buffer (mkPort [xaa; xbb] x01 x03 9 true)
    /\ debug self' = debug (mkPort [xaa; xbb] x01 x03 9 true)
    /\ client_writes out = [[x11; x06; x00; x01; x00; x03; x9a; x9b]]
    /\ data_frames out = []
    /\ debug_records out
       = if debug (mkPort [xaa; xbb] x01 x03 9 true)
         then [{| action := "send";
                  data := [x11; x06; x00; x01; x00; x03; x9a; x9b] |}]
         else [].
Proof.
  apply (write_forwards_request (mkPort [xaa; xbb] x01 x03 9 true)
           [x11; x06; x00; x01; x00; x03; x9a; x9b]).
  vm_compute. discriminate.
Defined.

(** X12: the last accepted request wins: after any [write], a second
    one of at least 6 bytes leaves the port, and has the effects, of
    that second [write] alone; nothing of the first expectation is
    left. *)
Theorem write_last_wins
        (self s1 s2 : port) (d1 d2 : buffer) (o1 o2 : list effect) :
  6 <= blength d2 ->
  write self d1 = Some (s1, o1) ->
  write s1 d2 = Some (s2, o2) ->
  write self d2 = Some (s2, o2).
Proof.
  intros Hl H1 H2.
  pose proof (write_keeps_buffer _ _ _ _ H1) as Hb.
  pose proof (write_keeps_debug _ _ _ _ H1) as Hd.
  destruct (index_in_range d2 0) as [id Hi0]; [lia|].
  destruct (index_in_range d2 1) as [cmd Hi1]; [lia|].
  destruct (answer_length_total cmd d2 Hl) as [len Ha].
  rewrite (write_accepted s1 d2 id cmd len Hl Hi0 Hi1 Ha) in H2.
  rewrite (write_accepted self d2 id cmd len Hl Hi0 Hi1 Ha).
  rewrite <- H2, Hb, Hd. reflexivity.
Qed.

Lemma write_last_wins_witness :
  write RTUBufferedPort [x01; x03; x00; x00; x00; x02]
  = Some (mkPort [] x01 x03 9 false,
          [client_write [x01; x03; x00; x00; x00; x02]]).
Proof.
  apply (write_last_wins RTUBufferedPort (mkPort [] x11 x01 8 false)
           (mkPort [] x01 x03 9 false)
           [x11; x01; x00; x13; x00; x13] [x01; x03; x00; x00; x00; x02]
           [client_write [x11; x01; x00; x13; x00; x13]]
           [client_write [x01; x03; x00; x00; x00; x02]]).
  - vm_compute. discriminate.
  - reflexivity.
  - reflexivity.
Defined.

(** ** Whole runs *)

Lemma debug_records_app (a b : list effect) :
  debug_records (a ++ b) = debug_records a ++ debug_records b.
Proof.
  induction a as [|[r|f|d] a IH]; cbn [app debug_records]; congruence.
Qed.

Lemma client_writes_app (a b : list effect) :
  client_writes (a ++ b) = client_writes a ++ client_writes b.
Proof.
  induction a as [|[r|f|d] a IH]; cbn [app client_writes]; congruence.
Qed.

(** What one input does to the switch, the debug stream and the serial
    client. *)
Lemma step_effects (self s1 : port) (e : input) (o1 : list effect) :
  step self e = Some (s1, o1) ->
  debug s1 = debug self
  /\ (debug self = false -> debug_records o1 = [])
  /\ client_writes o1 = accepted_sends [e].
Proof.
  destruct e as [d|chunk]; cbn [step accepted_sends].
  - intros Hw. split; [exact (write_keeps_debug _ _ _ _ Hw)|].
    revert Hw. unfold write. destruct (blength d <? 6).
    + intros [= _ <-]. auto.
    + destruct (index d 0); [|discriminate].
      destruct (index d 1); [|discriminate].
      cbn [bind]. destruct (answer_length b0 d); [|discriminate].
      cbn [bind ret]. intros [= _ <-].
      destruct (debug self); split; try discriminate; reflexivity.
  - unfold ret. intros [= Hp].
    destruct (onData_cases self chunk)
      as [H|[[_ H]|(HL & j & len & Hj & Hm & H)]];
      rewrite H in Hp; unfold _emitData in Hp; injection Hp as <- <-;
      cbn [set_buffer debug debug_records client_writes];
      repeat split; auto.
    + intros ->. reflexivity.
    + destruct (debug self); reflexivity.
Qed.

(** X13: with [debug] off the port never raises a ['debug'] event, and
    nothing it does turns the switch on: over any sequence of writes and
    receive events the effects hold no debug record and [debug] is still
    off at the end. *)
Theorem run_no_debug_when_off (es : list input) :
  forall (self self' : port) (out : list effect),
    debug self = false ->
    run self es = Some (self', out) ->
    debug_records out = [] /\ debug self' = false.
Proof.
  induction es as [|e es IH]; intros self self' out Hd Hr.
  { cbn in Hr. injection Hr as <- <-. auto. }
  cbn [run] in Hr.
  destruct (step self e) as [[s1 o1]|] eqn:Hs; [|discriminate].
  cbn [bind fst snd] in Hr.
  destruct (run s1 es) as [[s2 o2]|] eqn:Hr2; [|discriminate].
  cbn [bind ret fst snd] in Hr. injection Hr as <- <-.
  destruct (step_effects _ _ _ _ Hs) as (Hd1 & Hn1 & _).
  destruct (IH s1 s2 o2 ltac:(congruence) Hr2) as [Hn2 Hd2].
  rewrite debug_records_app, (Hn1 Hd), Hn2. auto.
Qed.

Lemma run_no_debug_when_off_witness :
  debug_records [client_write [x01; x03; x00; x00; x00; x02];
                 emit_data [x01; x03; x04; x00; x01; x00; x02; x2a; x32]]
  = []
  /\ debug (mkPort [] x01 x03 9 false) = false.
Proof.
  apply (run_no_debug_when_off
           [Send [x01; x03; x00; x00; x00; x02];
            Receive [x01; x03; x04; x00; x01; x00; x02; x2a; x32]]
           RTUBufferedPort).
  - reflexivity.
  - reflexivity.
Defined.

(** X14: the serial client is handed exactly the accepted requests:
    over any sequence of writes and receive events, the buffers passed
    to the client are the requests of at least 6 bytes, each once,
    unchanged and in the order written; receive events hand it nothing
    and shorter requests never reach it. *)
Theorem run_client_writes (es : list input) :
  forall (self self' : port) (out : list effect),
    run self es = Some (self', out) ->
    client_writes out = accepted_sends es.
Proof.
  induction es as [|e es IH]; intros self self' out Hr.
  { cbn in Hr. injection Hr as <- <-. reflexivity. }
  cbn [run] in Hr.
  destruct (step self e) as [[s1 o1]|] eqn:Hs; [|discriminate].
  cbn [bind fst snd] in Hr.
  destruct (run s1 es) as [[s2 o2]|] eqn:Hr2; [|discriminate].
  cbn [bind ret fst snd] in Hr. injection Hr as <- <-.
  destruct (step_effects _ _ _ _ Hs) as (_ & _ & Hc).
  rewrite client_writes_app, Hc, (IH _ _ _ Hr2).
  destruct e as [d|chunk]; cbn [accepted_sends];
    [destruct (blength d <? 6)|]; reflexivity.
Qed.

Lemma run_client_writes_witness :
  client_writes [client_write [x01; x03; x00; x00; x00; x02];
                 emit_data [x01; x83; x02; xc0; xf1];
                 client_write [x01; x63; x00; x00; x00; x02]]
  = accepted_sends [Send [x01; x03; x00; x00; x00; x02];
                    Send [x01; x03; x00];
                    Receive [x01; x83; x02; xc0; xf1];
                    Send [x01; x63; x00; x00; x00; x02]].
Proof.
  apply (run_client_writes
           [Send [x01; x03; x00; x00; x00; x02];
            Send [x01; x03; x00];
            Receive [x01; x83; x02; xc0; xf1];
            Send [x01; x63; x00; x00; x00; x02]]
           RTUBufferedPort (mkPort [] x01 x63 0 false)).
  reflexivity.
Defined.

(** The expectations [write] can leave: none, or a recognized command
    with a length its formula can give. *)
Lemma step_expectation (self s1 : port) (e : input) (o1 : list effect) :
  _length self = 0
  \/ (recognized (_cmd self) = true /\ 5 <= _length self <= 131075) ->
  step self e = Some (s1, o1) ->
  _length s1 = 0
  \/ (recognized (_cmd s1) = true /\ 5 <= _length s1 <= 131075).
Proof.
  intros Hinv. destruct e as [d|chunk]; cbn [step].
  - intros Hw. destruct (Z.lt_ge_cases (blength d) 6) as [Hd|Hd].
    { rewrite write_below_minimum in Hw by exact Hd.
      injection Hw as <- _. exact Hinv. }
    destruct (write_accepted_inv _ _ _ _ Hd Hw) as (_ & _ & Ha & _).
    destruct (readUInt16BE_in_range d 4) as (q & Hq & Hr); [lia|lia|].
    destruct (recognized (_cmd s1)) eqn:Hrec.
    + right. split; [reflexivity|].
      destruct (recognized_values _ Hrec)
        as [Hv|[Hv|[Hv|[Hv|[Hv|[Hv|[Hv|Hv]]]]]]].
      1,2: rewrite (answer_length_bits _ d q) in Ha by auto;
           rewrite parseInt_eighths in Ha by lia;
           assert (_length s1 = 3 + (q + 7) / 8 + 2) as -> by congruence;
           Z.div_mod_to_equations; lia.
      1,2: rewrite (answer_length_words _ d q) in Ha by auto;
           assert (_length s1 = 3 + 2 * q + 2) as -> by congruence; lia.
      all: rewrite (answer_length_echo _ d) in Ha by auto;
           assert (_length s1 = 8) as -> by congruence; lia.
    + left. rewrite (answer_length_unrecognized _ d Hrec) in Ha. congruence.
  - unfold ret. intros [= Hp].
    assert (s1 = fst (onData self chunk)) as -> by now rewrite Hp.
    rewrite (onData_same_expectation self chunk). exact Hinv.
Qed.

(** X15: the scanner is only ever armed for a recognized command.  On
    every port reached from a fresh one by writes and receive events,
    the expected length is 0, or the command code is one of 1, 2, 3, 4,
    5, 6, 15, 16 and the expected length lies between 5 and 131075 =
    3 + 2 * 65535 + 2. *)
Theorem run_expectation_invariant (es : list input) :
  forall (self' : port) (out : list effect),
    run RTUBufferedPort es = Some (self', out) ->
    _length self' = 0
    \/ (recognized (_cmd self') = true /\ 5 <= _length self' <= 131075).
Proof.
  assert (forall self,
             _length self = 0
             \/ (recognized (_cmd self) = true /\ 5 <= _length self <= 131075) ->
             forall self' out,
               run self es = Some (self', out) ->
               _length self' = 0
               \/ (recognized (_cmd self') = true
                   /\ 5 <= _length self' <= 131075)) as H.
  { induction es as [|e es IH]; intros self Hinv self' out Hr.
    { cbn in Hr. injection Hr as <- _. exact Hinv. }
    cbn [run] in Hr.
    destruct (step self e) as [[s1 o1]|] eqn:Hs; [|discriminate].
    cbn [bind fst snd] in Hr.
    destruct (run s1 es) as [[s2 o2]|] eqn:Hr2; [|discriminate].
    cbn [bind ret fst snd] in Hr. injection Hr as <- _.
    exact (IH s1 (step_expectation _ _ _ _ Hinv Hs) _ _ Hr2). }
  apply H. left. reflexivity.
Qed.

Lemma run_expectation_invariant_witness :
  _length (mkPort [x01; x83; x02; xc0; xf1] x01 x04 131075 false) = 0
  \/ (recognized (_cmd (mkPort [x01; x83; x02; xc0; xf1] x01 x04 131075 false))
      = true
      /\ 5 <= _length (mkPort [x01; x83; x02; xc0; xf1] x01 x04 131075 false)
         <= 131075).
Proof.
  apply (run_expectation_invariant
           [Receive [x01; x83; x02; xc0; xf1];
            Send [x01; x04; x00; x00; xff; xff]]
           (mkPort [x01; x83; x02; xc0; xf1] x01 x04 131075 false)
           [client_write [x01; x04; x00; x00; xff; xff]]).
  reflexivity.
Defined.
